(** * The headless map export of the editor's entry point

    A shallow embedding of [src/tiled/main.cpp]: the command line handler
    ([CommandLineHandler], lines 53-135) and [main] (lines 137-273), whose
    export branch resolves one map writer among the registered plugins,
    reads the source map, writes it through the chosen writer and releases
    the map.

    The Qt value classes the code relies on ([QString], [QStringList],
    [QFileInfo]) are modelled on byte strings, following Qt's documentation
    of the members that [main] calls. *)

From Stdlib Require Import ZArith Ascii String Bool.
From stdpp Require Import base list strings gmap.

Open Scope string_scope.
Open Scope list_scope.

(** ** Qt strings *)

Module Qt.

(** [Qt::CaseSensitivity]. *)
Inductive CaseSensitivity := CaseInsensitive | CaseSensitive.

(** [QChar::toCaseFolded], on the letters of the basic Latin block. *)
Definition toCaseFolded (c : ascii) : ascii :=
  let n := nat_of_ascii c in
  if (65 <=? n)%nat && (n <=? 90)%nat then ascii_of_nat (n + 32) else c.

Fixpoint foldCase (s : string) : string :=
  match s with
  | EmptyString => EmptyString
  | String c s' => String (toCaseFolded c) (foldCase s')
  end.

(** Both operands of a comparison are normalised according to the
    requested case sensitivity. *)
Definition normalise (cs : CaseSensitivity) (s : string) : string :=
  match cs with
  | CaseInsensitive => foldCase s
  | CaseSensitive => s
  end.

(** [QString::compare(a, b, cs) == 0]. *)
Definition equals (a b : string) (cs : CaseSensitivity) : bool :=
  String.eqb (normalise cs a) (normalise cs b).

Fixpoint startsWithRaw (s prefix : string) : bool :=
  match prefix, s with
  | EmptyString, _ => true
  | String _ _, EmptyString => false
  | String p prefix', String c s' => Ascii.eqb p c && startsWithRaw s' prefix'
  end.

Fixpoint containsRaw (s sub : string) : bool :=
  startsWithRaw s sub ||
  match s with
  | EmptyString => false
  | String _ s' => containsRaw s' sub
  end.

(** [QString::contains(sub, cs)]: [sub] occurs somewhere in [s]. *)
Definition contains (s sub : string) (cs : CaseSensitivity) : bool :=
  containsRaw (normalise cs s) (normalise cs sub).

(** [QStringList::contains(str, cs)]: some element is equal to [str]. *)
Definition listContains (l : list string) (str : string)
    (cs : CaseSensitivity) : bool :=
  existsb (fun s => equals s str cs) l.

(** [QStringList::filter(str, cs)]: the elements that contain [str] as a
    substring. *)
Definition listFilter (l : list string) (str : string)
    (cs : CaseSensitivity) : list string :=
  List.filter (fun s => contains s str cs) l.

(** [QList::isEmpty]. *)
Definition isEmpty {A} (l : list A) : bool :=
  match l with
  | [] => true
  | _ :: _ => false
  end.

(** [QList::at(i)]; the caller keeps [i] in range. *)
Definition at_ (l : list string) (i : nat) : string := nth i l EmptyString.

(** [QFileInfo::fileName]: the path without its directories, that is what
    follows the last ['/']. [acc] is what follows the last separator seen
    so far. *)
Fixpoint fileNameFrom (acc path : string) : string :=
  match path with
  | EmptyString => acc
  | String c rest =>
      if Ascii.eqb c "/" then fileNameFrom rest rest else fileNameFrom acc rest
  end.

Definition fileName (path : string) : string := fileNameFrom path path.

Fixpoint afterFirstDot (name : string) : string :=
  match name with
  | EmptyString => EmptyString
  | String c rest => if Ascii.eqb c "." then rest else afterFirstDot rest
  end.

(** [QFileInfo(path).completeSuffix()]: all characters of the file name
    after (and without) its first ['.']; empty when it has none. *)
Definition completeSuffix (path : string) : string :=
  afterFirstDot (fileName path).

End Qt.


(** ** Collaborators of the entry point *)

(** The target of a [Tiled::Map *]. Objects on the heap are known by their
    address: [address] is the map's own, [tilesets] is what
    [Map::tilesets()] lists, the tile sets the map uses. *)
Record Map := {
  address : nat;
  tilesets : list nat
}.

(** [Tiled::MapWriterInterface]: a plugin that writes maps in one format.
    [write] may create or change files and reports success. *)
Record MapWriterInterface := {
  nameFilters : list string;
  write : Map -> string -> gmap string string -> bool * gmap string string
}.

(** What the process does that can be seen from outside, in order. *)
Inductive Event :=
| QWarning (line : string)
| UnknownFlagReported (token : string)
| SetUseOpenGL (enabled : bool)
| LoadPlugins
| ReadMap (fileName : string) (result : option Map)
| WriteMap (writer : MapWriterInterface) (map : Map) (fileName : string)
| Delete (object : nat)
| ShowMainWindow
| OpenFile (fileName : string)
| OpenLastFiles
| Exec.

(** The files on disk (path to contents) and the events so far. *)
Record World := {
  events : list Event;
  files : gmap string string
}.

Definition addEvent (e : Event) (w : World) : World :=
  {| events := events w ++ [e]; files := files w |}.

(** What [main] is given besides its arguments. *)
Record Collaborators := {
  (** [BUILD_INFO_VERSION], when the build defines it (lines 152-156) *)
  buildInfoVersion : option string;
  (** [PluginManager::interfaces<MapWriterInterface>()], in its order *)
  pluginWriters : list MapWriterInterface;
  (** [MapReader::readMap]: null when the file cannot be loaded *)
  readMap : string -> gmap string string -> option Map;
  (** what [QApplication::exec] returns when the event loop ends *)
  execResult : Z
}.

(** Lines 151-156. *)
Definition applicationName : string := "Dofus.io Map Editor".

Definition applicationVersion (env : Collaborators) : string :=
  match buildInfoVersion env with
  | Some v => v
  | None => "0.12.0"
  end.

(** The conditions the export branch reports, and the text it prints for
    each (lines 202-253; [QCoreApplication::translate] without an installed
    translation gives the source text). *)
Inductive ExportError :=
| InsufficientArguments
| AmbiguousFormat
| NoWriterFound
| SourceLoadFailed
| ExportWriteFailed.

Definition message (e : ExportError) : string :=
  match e with
  | InsufficientArguments =>
      "Export syntax is --export-map [format] <tmx file> <target file>"
  | AmbiguousFormat =>
      "Non-unique file extension. Can't determine correct export format."
  | NoWriterFound => "No exporter found for target file."
  | SourceLoadFailed => "Failed to load source map."
  | ExportWriteFailed => "Failed to export map to target file."
  end.

(** ** Statements of [main]: state passing with early return *)

Inductive Flow (A : Type) : Type :=
| Next (a : A)
| Returned (code : Z).
Arguments Next {A} a.
Arguments Returned {A} code.

Definition Proc (A : Type) : Type := World -> Flow A * World.

Definition ret {A} (a : A) : Proc A := fun w => (Next a, w).

Definition bind {A B} (m : Proc A) (k : A -> Proc B) : Proc B :=
  fun w =>
    match m w with
    | (Next a, w') => k a w'
    | (Returned code, w') => (Returned code, w')
    end.

(** [return code;] in [main]. *)
Definition returnFromMain {A} (code : Z) : Proc A :=
  fun w => (Returned code, w).

Definition emit (e : Event) : Proc unit := fun w => (Next tt, addEvent e w).

Declare Scope proc_scope.
Delimit Scope proc_scope with proc.
Notation "x <- m ;; k" := (bind m (fun x => k))
  (at level 100, m at next level, right associativity) : proc_scope.
Notation "m ;; k" := (bind m (fun _ => k))
  (at level 100, right associativity) : proc_scope.
Open Scope proc_scope.

(** The exit status of a finished run. *)
Definition run (m : Proc Z) (w : World) : Z * World :=
  match m w with
  | (Next code, w') => (code, w')
  | (Returned code, w') => (code, w')
  end.

Definition qWarning (line : string) : Proc unit := emit (QWarning line).

(** [foreach (x, l) body]. *)
Fixpoint foreach {A} (l : list A) (body : A -> Proc unit) : Proc unit :=
  match l with
  | [] => ret tt
  | x :: rest => body x ;; foreach rest body
  end.

(** [delete p] and [qDeleteAll(l)]. *)
Definition delete (p : nat) : Proc unit := emit (Delete p).

Definition qDeleteAll (l : list nat) : Proc unit := foreach l delete.

(** [reader.readMap(fileName)] and [writer->write(map, fileName)]. *)
Definition readMapFile (env : Collaborators) (fileName : string)
    : Proc (option Map) :=
  fun w =>
    let map := readMap env fileName (files w) in
    (Next map, addEvent (ReadMap fileName map) w).

Definition writeMapFile (writer : MapWriterInterface) (map : Map)
    (fileName : string) : Proc bool :=
  fun w =>
    let '(success, files') := write writer map fileName (files w) in
    (Next success,
     {| events := events w ++ [WriteMap writer map fileName];
        files := files' |}).

(** ** The command line handler (lines 53-135) *)

(** The public members of [CommandLineHandler], with the positional
    arguments that its base class [CommandLineParser] collects
    ([filesToOpen()]). *)
Record CommandLineHandler := {
  quit : bool;
  showedVersion : bool;
  disableOpenGL : bool;
  exportMap : bool;
  filesToOpen : list string
}.

(** A member function registered for an option acts on the handler and may
    print. *)
Definition Handler : Type :=
  CommandLineHandler -> World -> CommandLineHandler * World.

(** Lines 112-120. [qWarning()] separates what it is given by a space. *)
Definition versionLine (env : Collaborators) : string :=
  applicationName +:+ " " +:+ applicationVersion env.

Definition showVersion (env : Collaborators) : Handler :=
  fun h w =>
    if negb (showedVersion h) then
      ({| quit := true;
          showedVersion := true;
          disableOpenGL := disableOpenGL h;
          exportMap := exportMap h;
          filesToOpen := filesToOpen h |},
       addEvent (QWarning (versionLine env)) w)
    else (h, w).

(** Lines 122-125. *)
Definition justQuit : Handler :=
  fun h w =>
    ({| quit := true;
        showedVersion := showedVersion h;
        disableOpenGL := disableOpenGL h;
        exportMap := exportMap h;
        filesToOpen := filesToOpen h |}, w).

(** Lines 127-130. *)
Definition setDisableOpenGL : Handler :=
  fun h w =>
    ({| quit := quit h;
        showedVersion := showedVersion h;
        disableOpenGL := true;
        exportMap := exportMap h;
        filesToOpen := filesToOpen h |}, w).

(** Lines 132-135. *)
Definition setExportMap : Handler :=
  fun h w =>
    ({| quit := quit h;
        showedVersion := showedVersion h;
        disableOpenGL := disableOpenGL h;
        exportMap := true;
        filesToOpen := filesToOpen h |}, w).

(** An option as [registerOption] receives it; a null [QChar] short name
    is [None]. *)
Record CommandLineOption := {
  shortName : option ascii;
  longName : string;
  help : string;
  handler : Handler
}.

(** The constructor (lines 85-110): every flag starts cleared and four
    options are registered. *)
Definition newCommandLineHandler : CommandLineHandler :=
  {| quit := false;
     showedVersion := false;
     disableOpenGL := false;
     exportMap := false;
     filesToOpen := [] |}.

Definition registeredOptions (env : Collaborators) : list CommandLineOption :=
  [ {| shortName := Some "v"%char;
       longName := "--version";
       help := "Display the version";
       handler := showVersion env |};
    {| shortName := None;
       longName := "--quit";
       help := "Only check validity of arguments";
       handler := justQuit |};
    {| shortName := None;
       longName := "--disable-opengl";
       help := "Disable hardware accelerated rendering";
       handler := setDisableOpenGL |};
    {| shortName := None;
       longName := "--export-map";
       help := "Export the specified tmx file to target";
       handler := setExportMap |} ].

(** *** Parsing *)

Inductive ParseStatus := ParseOk | MalformedArguments.

(** What [if (!commandLine.parse(...))] tests. *)
Definition parsed (s : ParseStatus) : bool :=
  match s with
  | ParseOk => true
  | MalformedArguments => false
  end.

(** A token that begins with a hyphen is a flag. *)
Definition isFlag (token : string) : bool :=
  match token with
  | String c _ => Ascii.eqb c "-"
  | EmptyString => false
  end.

Definition names (o : CommandLineOption) (token : string) : bool :=
  String.eqb token (longName o) ||
  match shortName o with
  | Some c => String.eqb token (String "-" (String c EmptyString))
  | None => false
  end.

Definition findOption (options : list CommandLineOption) (token : string)
    : option CommandLineOption :=
  List.find (fun o => names o token) options.

Definition appendFile (fileName : string) (h : CommandLineHandler)
    : CommandLineHandler :=
  {| quit := quit h;
     showedVersion := showedVersion h;
     disableOpenGL := disableOpenGL h;
     exportMap := exportMap h;
     filesToOpen := filesToOpen h ++ [fileName] |}.

(** Modelled from the spec: [CommandLineParser::parse], whose source
    (commandlineparser.cpp) is not among the sources. Following section 4.1,
    the registered flags are boolean switches that run their handler, any
    other token is a positional file argument collected in order, and an
    unknown flag makes parsing fail with [MalformedArguments], which is
    reported on the diagnostic stream (section 7). *)
Fixpoint parseTokens (options : list CommandLineOption) (tokens : list string)
    (h : CommandLineHandler) (w : World)
    : ParseStatus * CommandLineHandler * World :=
  match tokens with
  | [] => (ParseOk, h, w)
  | token :: rest =>
      if isFlag token then
        match findOption options token with
        | Some o =>
            let '(h', w') := handler o h w in
            parseTokens options rest h' w'
        | None =>
            (MalformedArguments, h, addEvent (UnknownFlagReported token) w)
        end
      else parseTokens options rest (appendFile token h) w
  end.

(** Modelled from the spec: the entry of [CommandLineParser::parse]. The
    first element of [QCoreApplication::arguments()] is the program name
    and not a token (section 6 lists the positional arguments as filter,
    source and target only). *)
Definition parse (env : Collaborators) (arguments : list string)
    (h : CommandLineHandler) (w : World)
    : ParseStatus * CommandLineHandler * World :=
  parseTokens (registeredOptions env) (List.tl arguments) h w.

Definition parseCommandLine (env : Collaborators) (arguments : list string)
    : Proc (ParseStatus * CommandLineHandler) :=
  fun w =>
    let '(status, h, w') := parse env arguments newCommandLineHandler w in
    (Next (status, h), w').

(** ** The export branch of [main] (lines 199-257) *)

(** Line 217: the filter is one of the writer's name filters. *)
Definition matchesFilter (filter : string) (writer : MapWriterInterface)
    : bool :=
  Qt.listContains (nameFilters writer) filter Qt.CaseInsensitive.

(** Line 221: some name filter of the writer contains the suffix. *)
Definition matchesSuffix (suffix : string) (writer : MapWriterInterface)
    : bool :=
  negb (Qt.isEmpty (Qt.listFilter (nameFilters writer) suffix Qt.CaseInsensitive)).

(** Lines 215-229, the loop over the writers still to visit, with the
    current value of [chosenWriter]. *)
Fixpoint foreachWriter (filter : option string) (suffix : string)
    (writers : list MapWriterInterface)
    (chosenWriter : option MapWriterInterface)
    : Proc (option MapWriterInterface) :=
  match writers with
  | [] => ret chosenWriter
  | writer :: rest =>
      match filter with
      | Some f =>
          if matchesFilter f writer
          then foreachWriter filter suffix rest (Some writer)
          else foreachWriter filter suffix rest chosenWriter
      | None =>
          if matchesSuffix suffix writer then
            match chosenWriter with
            | Some _ =>
                qWarning (message AmbiguousFormat) ;;
                returnFromMain 1
            | None => foreachWriter filter suffix rest (Some writer)
            end
          else foreachWriter filter suffix rest chosenWriter
      end
  end.

(** Lines 206-209: [filter], [sourceFile] and [targetFile], read from the
    positional arguments with a running [index]. *)
Definition exportArguments (filesToOpen : list string)
    : option string * string * string :=
  let index := 0 in
  let '(filter, index) :=
    if (2 <? length filesToOpen)%nat
    then (Some (Qt.at_ filesToOpen index), S index)
    else (None, index) in
  let sourceFile := Qt.at_ filesToOpen index in
  let index := S index in
  let targetFile := Qt.at_ filesToOpen index in
  (filter, sourceFile, targetFile).

(** Lines 201-234: the source file, the target file and the one writer
    to use, or the end of [main] with status 1. *)
Definition resolveWriter (env : Collaborators) (filesToOpen : list string)
    : Proc (MapWriterInterface * string * string) :=
  if (length filesToOpen <? 2)%nat then
    qWarning (message InsufficientArguments) ;;
    returnFromMain 1
  else
    let '(filter, sourceFile, targetFile) := exportArguments filesToOpen in
    let suffix := Qt.completeSuffix targetFile in
    let writers := pluginWriters env in
    chosenWriter <- foreachWriter filter suffix writers None ;;
    match chosenWriter with
    | None =>
        qWarning (message NoWriterFound) ;;
        returnFromMain 1
    | Some chosenWriter => ret (chosenWriter, sourceFile, targetFile)
    end.

(** Lines 236-256, once a writer is chosen. *)
Definition exportWith (env : Collaborators) (chosenWriter : MapWriterInterface)
    (sourceFile targetFile : string) : Proc Z :=
  map <- readMapFile env sourceFile ;;
  match map with
  | None =>
      qWarning (message SourceLoadFailed) ;;
      returnFromMain 1
  | Some map =>
      success <- writeMapFile chosenWriter map targetFile ;;
      qDeleteAll (tilesets map) ;;
      delete (address map) ;;
      if negb success then
        qWarning (message ExportWriteFailed) ;;
        returnFromMain 1
      else returnFromMain 0
  end.

(** Lines 200-257. *)
Definition exportBranch (env : Collaborators) (filesToOpen : list string)
    : Proc Z :=
  resolved <- resolveWriter env filesToOpen ;;
  let '(chosenWriter, sourceFile, targetFile) := resolved in
  exportWith env chosenWriter sourceFile targetFile.

(** Lines 259-272: the main window and the event loop. *)
Definition guiBranch (env : Collaborators) (filesToOpen : list string)
    : Proc Z :=
  emit ShowMainWindow ;;
  (if negb (Qt.isEmpty filesToOpen)
   then foreach filesToOpen (fun fileName => emit (OpenFile fileName))
   else emit OpenLastFiles) ;;
  emit Exec ;;
  returnFromMain (execResult env).

(** ** [main] (lines 137-273)

    [startup] is lines 194-197: the preference and the plugins. The set-up
    of the application object, of the widget style and of the
    translators (lines 139-186) prints nothing and reads no argument; the
    application name and version it sets are [applicationName] and
    [applicationVersion]. *)
Definition startup (commandLine : CommandLineHandler) : Proc unit :=
  (if disableOpenGL commandLine then emit (SetUseOpenGL false) else ret tt) ;;
  emit LoadPlugins.

Definition mainBody (env : Collaborators) (arguments : list string) : Proc Z :=
  result <- parseCommandLine env arguments ;;
  let '(status, commandLine) := result in
  if negb (parsed status) then returnFromMain 0
  else if quit commandLine then returnFromMain 0
  else
    startup commandLine ;;
    if exportMap commandLine
    then exportBranch env (filesToOpen commandLine)
    else guiBranch env (filesToOpen commandLine).

Definition main (env : Collaborators) (arguments : list string) (w : World)
    : Z * World :=
  run (mainBody env arguments) w.

(** ** Observations on a run *)

(** The world in which the export or the window starts. *)
Definition afterStartup (h : CommandLineHandler) (w : World) : World :=
  addEvent LoadPlugins
    (if disableOpenGL h then addEvent (SetUseOpenGL false) w else w).

(** How often the object at address [p] was deleted. *)
Definition isDeleteOf (p : nat) (e : Event) : bool :=
  match e with
  | Delete q => Nat.eqb p q
  | _ => false
  end.

Definition released (p : nat) (log : list Event) : nat :=
  length (List.filter (isDeleteOf p) log).

(** What the map read from disk owns: itself and its tile sets. *)
Definition owned (m : Map) : list nat := address m :: tilesets m.

(** How often the version line was printed. *)
Definition isVersionLine (env : Collaborators) (e : Event) : bool :=
  match e with
  | QWarning line => String.eqb line (versionLine env)
  | _ => false
  end.

Definition versionLines (env : Collaborators) (log : list Event) : nat :=
  length (List.filter (isVersionLine env) log).

(** Events of the command line parser, as opposed to those of the export
    and of the window. *)
Definition fromParser (e : Event) : bool :=
  match e with
  | QWarning _ | UnknownFlagReported _ => true
  | _ => false
  end.

(** Events that neither read, write nor delete a map. *)
Definition noMapIO (e : Event) : bool :=
  match e with
  | ReadMap _ _ | WriteMap _ _ _ | Delete _ => false
  | _ => true
  end.

Definition isVersionFlag (token : string) : bool :=
  String.eqb token "-v" || String.eqb token "--version".

(** The flags after which [main] is to return at once. *)
Definition requestsQuit (token : string) : bool :=
  isVersionFlag token || String.eqb token "--quit".

(** A flag that no registered option names. *)
Definition isUnknownFlag (options : list CommandLineOption) (token : string)
    : bool :=
  isFlag token &&
  match findOption options token with
  | Some _ => false
  | None => true
  end.

(** What a step of the parser may do: add parser events, and leave the
    disk alone. *)
Definition parserStep (w : World) (r : CommandLineHandler * World) : Prop :=
  files (snd r) = files w /\
  exists log, events (snd r) = events w ++ log /\ forallb fromParser log = true.

(** The version lines printed so far, plus one as long as the version has
    not been shown: a bound on the version lines of the whole run. *)
Definition versionBudget (env : Collaborators) (h : CommandLineHandler)
    (w : World) : nat :=
  versionLines env (events w) + (if showedVersion h then 0 else 1).

Fixpoint hasChar (c : ascii) (s : string) : bool :=
  match s with
  | EmptyString => false
  | String d s' => Ascii.eqb d c || hasChar c s'
  end.

(** ** Further observations on a run *)

(** How often an event of some kind occurs in a log. *)
Definition occurrences (p : Event -> bool) (log : list Event) : nat :=
  length (List.filter p log).

Definition isLoadPlugins (e : Event) : bool :=
  match e with
  | LoadPlugins => true
  | _ => false
  end.

Definition isSetUseOpenGL (enabled : bool) (e : Event) : bool :=
  match e with
  | SetUseOpenGL b => Bool.eqb enabled b
  | _ => false
  end.

Definition isWarning (e : Event) : bool :=
  match e with
  | QWarning _ => true
  | _ => false
  end.


(** Events of the main window and of the event loop. *)
Definition isGuiEvent (e : Event) : bool :=
  match e with
  | ShowMainWindow | OpenFile _ | OpenLastFiles | Exec => true
  | _ => false
  end.

(** One handler after another, as for two flags in a row. *)
Definition andThen (f g : Handler) : Handler :=
  fun h w => let '(h', w') := f h w in g h' w'.

(** The three ways in which the export branch, started in [w], ends: no
    writer resolved, source not loaded, or map handed to the writer. *)
Inductive ExportRun (env : Collaborators) (filesToOpen : list string)
    (w : World) : Z -> World -> Prop :=
| ExportUnresolved (e : ExportError) :
    e = InsufficientArguments \/ e = AmbiguousFormat \/ e = NoWriterFound ->
    resolveWriter env filesToOpen w
    = (Returned 1, addEvent (QWarning (message e)) w) ->
    ExportRun env filesToOpen w 1 (addEvent (QWarning (message e)) w)
| ExportUnreadable (writer : MapWriterInterface) (sourceFile targetFile : string) :
    resolveWriter env filesToOpen w = (Next (writer, sourceFile, targetFile), w) ->
    readMap env sourceFile (files w) = None ->
    ExportRun env filesToOpen w 1
      {| events := events w ++ [ReadMap sourceFile None;
                                QWarning (message SourceLoadFailed)];
         files := files w |}
| ExportWritten (writer : MapWriterInterface) (sourceFile targetFile : string)
    (m : Map) :
    resolveWriter env filesToOpen w = (Next (writer, sourceFile, targetFile), w) ->
    readMap env sourceFile (files w) = Some m ->
    ExportRun env filesToOpen w
      (if fst (write writer m targetFile (files w)) then 0 else 1)
      {| events := events w
                   ++ [ReadMap sourceFile (Some m);
                       WriteMap writer m targetFile]
                   ++ map Delete (tilesets m)
                   ++ [Delete (address m)]
                   ++ (if fst (write writer m targetFile (files w)) then []
                       else [QWarning (message ExportWriteFailed)]);
         files := snd (write writer m targetFile (files w)) |}.

(** ** A registry and a disk to run the model on *)

Definition initialWorld (disk : gmap string string) : World :=
  {| events := []; files := disk |}.

(** A writer that stores a fixed text in the target file. *)
Definition textWriter (filters : list string) (text : string)
    : MapWriterInterface :=
  {| nameFilters := filters;
     write := fun _ fileName disk => (true, <[fileName := text]> disk) |}.

(** A writer that always fails and leaves the disk as it is. *)
Definition failingWriter (filters : list string) : MapWriterInterface :=
  {| nameFilters := filters;
     write := fun _ _ disk => (false, disk) |}.

(** A reader that loads every file present on the disk as the same map,
    located at address 1 with tile sets at addresses 2 and 3. *)
Definition sampleMap : Map := {| address := 1; tilesets := [2; 3] |}.

Definition sampleReader (fileName : string) (disk : gmap string string)
    : option Map :=
  match disk !! fileName with
  | Some _ => Some sampleMap
  | None => None
  end.

Definition sampleEnv (writers : list MapWriterInterface) : Collaborators :=
  {| buildInfoVersion := None;
     pluginWriters := writers;
     readMap := sampleReader;
     execResult := 0 |}.

Definition sampleDisk : gmap string string := {[ "a.tmx" := "<map/>" ]}.

Definition tmxWriter : MapWriterInterface :=
  textWriter ["Tiled map files (*.tmx)"] "tmx".

Definition jsonWriter : MapWriterInterface :=
  textWriter ["Json files (*.json)"] "json".

(** Two writers that declare the same name filter. *)
Definition firstFlare : MapWriterInterface :=
  textWriter ["Flare map files (*.txt)"] "first".

Definition secondFlare : MapWriterInterface :=
  textWriter ["Flare map files (*.txt)"] "second".

Definition brokenJsonWriter : MapWriterInterface :=
  failingWriter ["Json files (*.json)"].


(** * Properties *)

(** Both sides are worlds built by adding events: bring the logs to the
    same shape. *)
Ltac same_world :=
  cbn; unfold addEvent; cbn;
  repeat (rewrite <- app_assoc; cbn);
  try reflexivity.

(** ** The writer loop *)

Section WriterLoop.

Variable suffix : string.

Lemma foreachWriter_skip_suffix before writers chosen :
  Forall (fun x => matchesSuffix suffix x = false) before ->
  foreachWriter None suffix (before ++ writers) chosen
  = foreachWriter None suffix writers chosen.
Proof.
  induction 1 as [|x before Hx _ IH]; [reflexivity|].
  cbn [app foreachWriter]. by rewrite Hx.
Qed.

Lemma foreachWriter_skip_filter f before writers chosen :
  Forall (fun x => matchesFilter f x = false) before ->
  foreachWriter (Some f) suffix (before ++ writers) chosen
  = foreachWriter (Some f) suffix writers chosen.
Proof.
  induction 1 as [|x before Hx _ IH]; [reflexivity|].
  cbn [app foreachWriter]. by rewrite Hx.
Qed.

(** With a filter the loop never leaves [main]: it ends with the last
    writer that matches, or with the initial value when none does. *)
Lemma foreachWriter_filter f writers chosen w :
  foreachWriter (Some f) suffix writers chosen w
  = (Next (match last (List.filter (matchesFilter f) writers) with
           | Some x => Some x
           | None => chosen
           end), w).
Proof.
  revert chosen. induction writers as [|x writers IH]; intros chosen.
  - reflexivity.
  - cbn [foreachWriter List.filter]. destruct (matchesFilter f x) eqn:Hx.
    + rewrite IH, last_cons.
      by destruct (last (List.filter (matchesFilter f) writers)).
    + apply IH.
Qed.

(** Once a writer is chosen, the first further match on the suffix ends
    [main]. *)
Lemma foreachWriter_suffix_chosen writers c w :
  foreachWriter None suffix writers (Some c) w
  = match List.filter (matchesSuffix suffix) writers with
    | [] => (Next (Some c), w)
    | _ :: _ => (Returned 1, addEvent (QWarning (message AmbiguousFormat)) w)
    end.
Proof.
  induction writers as [|x writers IH]; [reflexivity|].
  cbn [foreachWriter List.filter]. destruct (matchesSuffix suffix x); [reflexivity|].
  apply IH.
Qed.

(** Without a filter the loop is decided by the writers that match the
    suffix: none, exactly one, or at least two. *)
Lemma foreachWriter_suffix writers w :
  foreachWriter None suffix writers None w
  = match List.filter (matchesSuffix suffix) writers with
    | [] => (Next None, w)
    | [x] => (Next (Some x), w)
    | _ :: _ :: _ =>
        (Returned 1, addEvent (QWarning (message AmbiguousFormat)) w)
    end.
Proof.
  induction writers as [|x writers IH]; [reflexivity|].
  cbn [foreachWriter List.filter]. destruct (matchesSuffix suffix x); [|apply IH].
  rewrite foreachWriter_suffix_chosen.
  by destruct (List.filter (matchesSuffix suffix) writers).
Qed.

(** C1. Without a filter, the loop leaves [main] with status 1 and the
    message of [AmbiguousFormat] at the second writer that matches the
    suffix, whatever the writers after it are, and does not keep the first
    match; with a filter, the writer chosen is the last one of the registry
    that matches the filter. *)
Theorem C1_second_suffix_match_fails_last_filter_match_wins (w : World) :
  (forall before first between second rest,
      Forall (fun x => matchesSuffix suffix x = false) before ->
      matchesSuffix suffix first = true ->
      Forall (fun x => matchesSuffix suffix x = false) between ->
      matchesSuffix suffix second = true ->
      foreachWriter None suffix
        (before ++ first :: between ++ second :: rest) None w
      = (Returned 1, addEvent (QWarning (message AmbiguousFormat)) w))
  /\
  (forall f before final after chosen,
      matchesFilter f final = true ->
      Forall (fun x => matchesFilter f x = false) after ->
      foreachWriter (Some f) suffix (before ++ final :: after) chosen w
      = (Next (Some final), w)).
Proof.
  split.
  - intros before first between second rest Hb Hf Hm Hs.
    rewrite foreachWriter_skip_suffix by done.
    cbn [foreachWriter]. rewrite Hf.
    rewrite foreachWriter_skip_suffix by done.
    cbn [foreachWriter]. by rewrite Hs.
  - intros f before final after chosen Hf Ha.
    rewrite foreachWriter_filter. f_equal. f_equal.
    rewrite List.filter_app. cbn [List.filter]. rewrite Hf.
    replace (List.filter (matchesFilter f) after) with (@nil MapWriterInterface).
    + by rewrite last_snoc.
    + symmetry. induction Ha as [|x after Hx _ IH]; [reflexivity|].
      cbn [List.filter]. by rewrite Hx.
Qed.

End WriterLoop.

(** ** Running [main] *)

Section Run.

Variable env : Collaborators.

Lemma foreach_emit {A} (f : A -> Event) (l : list A) (w : World) :
  foreach l (fun x => emit (f x)) w
  = (Next tt, {| events := events w ++ map f l; files := files w |}).
Proof.
  revert w. induction l as [|x l IH]; intros w.
  - cbn. rewrite app_nil_r. by destruct w.
  - cbn [foreach map]. unfold bind at 1. cbn [emit]. rewrite IH.
    cbn. by rewrite <- app_assoc.
Qed.

Lemma startup_run h w : startup h w = (Next tt, afterStartup h w).
Proof. unfold startup, afterStartup, bind. by destruct (disableOpenGL h). Qed.

Lemma main_malformed arguments w h w1 :
  parse env arguments newCommandLineHandler w = (MalformedArguments, h, w1) ->
  main env arguments w = (0%Z, w1).
Proof.
  intros Hp. unfold main, run, mainBody, bind, parseCommandLine. by rewrite Hp.
Qed.

Lemma main_quit arguments w h w1 :
  parse env arguments newCommandLineHandler w = (ParseOk, h, w1) ->
  quit h = true ->
  main env arguments w = (0%Z, w1).
Proof.
  intros Hp Hq. unfold main, run, mainBody, bind, parseCommandLine.
  rewrite Hp. cbn. by rewrite Hq.
Qed.

Lemma main_export arguments w h w1 :
  parse env arguments newCommandLineHandler w = (ParseOk, h, w1) ->
  quit h = false ->
  exportMap h = true ->
  main env arguments w = run (exportBranch env (filesToOpen h)) (afterStartup h w1).
Proof.
  intros Hp Hq He. unfold main, run, mainBody, parseCommandLine.
  unfold bind at 1. rewrite Hp. cbn [parsed negb]. rewrite Hq.
  unfold bind at 1. rewrite startup_run. by rewrite He.
Qed.

Lemma main_gui arguments w h w1 :
  parse env arguments newCommandLineHandler w = (ParseOk, h, w1) ->
  quit h = false ->
  exportMap h = false ->
  main env arguments w = run (guiBranch env (filesToOpen h)) (afterStartup h w1).
Proof.
  intros Hp Hq He. unfold main, run, mainBody, parseCommandLine.
  unfold bind at 1. rewrite Hp. cbn [parsed negb]. rewrite Hq.
  unfold bind at 1. rewrite startup_run. by rewrite He.
Qed.

(** *** The parser *)

Lemma registered_handler token o :
  findOption (registeredOptions env) token = Some o ->
  (isVersionFlag token = true /\ handler o = showVersion env) \/
  (isVersionFlag token = false /\
   (handler o = justQuit \/ handler o = setDisableOpenGL \/
    handler o = setExportMap)).
Proof.
  unfold findOption, registeredOptions, isVersionFlag.
  cbn [List.find]. unfold names. cbn [longName shortName].
  destruct (String.eqb token "--version") eqn:E1; cbn [orb].
  { rewrite orb_true_r. intros [= <-]. by left. }
  destruct (String.eqb token "-v") eqn:E2; cbn [orb].
  { intros [= <-]. by left. }
  rewrite !orb_false_r. intros H. right. split; [done|]. revert H.
  destruct (String.eqb token "--quit"); [intros [= <-]; auto|].
  destruct (String.eqb token "--disable-opengl"); [intros [= <-]; auto|].
  destruct (String.eqb token "--export-map"); [intros [= <-]; auto|].
  discriminate.
Qed.

Lemma version_flag_registered token :
  isVersionFlag token = true ->
  isFlag token = true /\
  exists o, findOption (registeredOptions env) token = Some o /\
            handler o = showVersion env.
Proof.
  unfold isVersionFlag. intros H. apply orb_true_iff in H.
  destruct H as [H|H]; apply String.eqb_eq in H; subst token;
    (split; [reflexivity|]); eexists; split; reflexivity.
Qed.

Lemma registered_handler_step token o h w :
  findOption (registeredOptions env) token = Some o ->
  parserStep w (handler o h w).
Proof.
  intros Ho. apply registered_handler in Ho.
  destruct Ho as [[_ ->] | [_ [-> | [-> | ->]]]]; unfold parserStep.
  - unfold showVersion. destruct (negb (showedVersion h)); cbn.
    + split; [done|]. by exists [QWarning (versionLine env)].
    + split; [done|]. exists []. by rewrite app_nil_r.
  - cbn. split; [done|]. exists []. by rewrite app_nil_r.
  - cbn. split; [done|]. exists []. by rewrite app_nil_r.
  - cbn. split; [done|]. exists []. by rewrite app_nil_r.
Qed.

Lemma parseTokens_effects tokens h w status h' w' :
  parseTokens (registeredOptions env) tokens h w = (status, h', w') ->
  files w' = files w /\
  exists log, events w' = events w ++ log /\ forallb fromParser log = true.
Proof.
  revert h w. induction tokens as [|token rest IH]; intros h w.
  - cbn. intros [= <- <- <-]. split; [done|]. exists []. by rewrite app_nil_r.
  - cbn [parseTokens]. destruct (isFlag token).
    + destruct (findOption (registeredOptions env) token) as [o|] eqn:Ho.
      * pose proof (registered_handler_step token o h w Ho) as [Hf [l1 [He Hl1]]].
        destruct (handler o h w) as [h1 w1]. cbn [snd] in *.
        intros Hr. apply IH in Hr as [Hf' [l2 [He' Hl2]]].
        split; [congruence|]. exists (l1 ++ l2).
        rewrite He', He, <- app_assoc. split; [done|].
        rewrite forallb_app. by rewrite Hl1, Hl2.
      * intros [= <- <- <-]. cbn. split; [done|].
        by exists [UnknownFlagReported token].
    + apply IH.
Qed.

Lemma parse_effects arguments w status h w1 :
  parse env arguments newCommandLineHandler w = (status, h, w1) ->
  files w1 = files w /\
  exists log, events w1 = events w ++ log /\ forallb fromParser log = true.
Proof. apply parseTokens_effects. Qed.

(** *** Resolution and export *)

Lemma exportArguments_two sourceFile targetFile :
  exportArguments [sourceFile; targetFile] = (None, sourceFile, targetFile).
Proof. reflexivity. Qed.

Lemma exportArguments_more filter sourceFile targetFile more :
  exportArguments (filter :: sourceFile :: targetFile :: more)
  = (Some filter, sourceFile, targetFile).
Proof. reflexivity. Qed.

(** Resolution either yields its result without any effect, or ends
    [main] with status 1 after one line on the diagnostic stream. *)
Lemma resolveWriter_cases filesToOpen w :
  (exists r, resolveWriter env filesToOpen w = (Next r, w)) \/
  (exists e,
      (e = InsufficientArguments \/ e = AmbiguousFormat \/ e = NoWriterFound) /\
      resolveWriter env filesToOpen w
      = (Returned 1, addEvent (QWarning (message e)) w)).
Proof.
  unfold resolveWriter. destruct (length filesToOpen <? 2)%nat.
  { right. exists InsufficientArguments. split; [auto|reflexivity]. }
  destruct (exportArguments filesToOpen) as [[[f|] s] t]; unfold bind.
  - rewrite foreachWriter_filter.
    destruct (last (List.filter (matchesFilter f) (pluginWriters env))).
    + left. eexists. reflexivity.
    + right. exists NoWriterFound. split; [auto|reflexivity].
  - rewrite foreachWriter_suffix.
    destruct (List.filter _ (pluginWriters env)) as [|x [|y l]].
    + right. exists NoWriterFound. split; [auto|reflexivity].
    + left. eexists. reflexivity.
    + right. exists AmbiguousFormat. split; [auto|reflexivity].
Qed.

Lemma exportWith_run writer sourceFile targetFile w :
  run (exportWith env writer sourceFile targetFile) w
  = match readMap env sourceFile (files w) with
    | None =>
        (1%Z,
         {| events := events w ++ [ReadMap sourceFile None;
                                   QWarning (message SourceLoadFailed)];
            files := files w |})
    | Some m =>
        let result := write writer m targetFile (files w) in
        ((if fst result then 0 else 1)%Z,
         {| events := events w
                      ++ [ReadMap sourceFile (Some m);
                          WriteMap writer m targetFile]
                      ++ map Delete (tilesets m)
                      ++ [Delete (address m)]
                      ++ (if fst result then []
                          else [QWarning (message ExportWriteFailed)]);
            files := snd result |})
    end.
Proof.
  unfold exportWith, run, readMapFile, writeMapFile, qDeleteAll, delete, bind.
  destruct (readMap env sourceFile (files w)) as [m|]; cbn [files addEvent events].
  - destruct (write writer m targetFile (files w)) as [success disk].
    rewrite foreach_emit.
    destruct success; same_world.
  - same_world.
Qed.

Lemma exportBranch_resolved filesToOpen w writer sourceFile targetFile :
  resolveWriter env filesToOpen w = (Next (writer, sourceFile, targetFile), w) ->
  run (exportBranch env filesToOpen) w
  = run (exportWith env writer sourceFile targetFile) w.
Proof. intros H. unfold exportBranch, run, bind. by rewrite H. Qed.

Lemma exportBranch_failed filesToOpen w code w' :
  resolveWriter env filesToOpen w = (Returned code, w') ->
  run (exportBranch env filesToOpen) w = (code, w').
Proof. intros H. unfold exportBranch, run, bind. by rewrite H. Qed.

Lemma guiBranch_run filesToOpen w :
  run (guiBranch env filesToOpen) w
  = (execResult env,
     {| events := events w ++ ShowMainWindow
                  :: (if Qt.isEmpty filesToOpen then [OpenLastFiles]
                      else map OpenFile filesToOpen) ++ [Exec];
        files := files w |}).
Proof.
  unfold guiBranch, run. unfold bind at 1. cbn [emit].
  unfold bind at 1. destruct filesToOpen as [|x l].
  - same_world.
  - cbn [Qt.isEmpty negb]. rewrite foreach_emit. same_world.
Qed.

(** *** Counting deletions *)

Lemma released_app p l1 l2 :
  released p (l1 ++ l2) = released p l1 + released p l2.
Proof. unfold released. by rewrite List.filter_app, length_app. Qed.

Lemma noMapIO_released p log :
  forallb noMapIO log = true -> released p log = 0.
Proof.
  unfold released. induction log as [|e log IH]; [done|].
  cbn. intros [He Hl]%andb_true_iff. destruct e; try discriminate; auto.
Qed.

Lemma released_deletes p l :
  NoDup l ->
  released p (map Delete l) = if bool_decide (p ∈ l) then 1 else 0.
Proof.
  unfold released. induction 1 as [|x l Hx Hl IH].
  - reflexivity.
  - cbn [map List.filter isDeleteOf]. destruct (Nat.eqb_spec p x) as [->|Hne].
    + cbn [length]. rewrite IH.
      rewrite (bool_decide_eq_false_2 _ Hx).
      rewrite bool_decide_eq_true_2 by (by left). reflexivity.
    + rewrite IH.
      assert (bool_decide (p ∈ x :: l) = bool_decide (p ∈ l)) as ->; [|done].
      apply bool_decide_ext. rewrite elem_of_cons.
      split; [intros [Heq|Hin]; [by destruct Hne | exact Hin] | by right].
Qed.

Lemma fromParser_noMapIO log :
  forallb fromParser log = true -> forallb noMapIO log = true.
Proof.
  induction log as [|e log IH]; [done|].
  cbn. intros [He Hl]%andb_true_iff. rewrite IH by done.
  by destruct e.
Qed.

Lemma noMapIO_not_read log fileName result :
  forallb noMapIO log = true -> ReadMap fileName result ∉ log.
Proof.
  intros H Hin. rewrite forallb_forall in H.
  apply list_elem_of_In in Hin. by apply H in Hin.
Qed.

Lemma afterStartup_effects h w :
  files (afterStartup h w) = files w /\
  exists log, events (afterStartup h w) = events w ++ log /\
              forallb noMapIO log = true.
Proof.
  unfold afterStartup. destruct (disableOpenGL h); cbn.
  - split; [done|]. exists [SetUseOpenGL false; LoadPlugins].
    by rewrite <- app_assoc.
  - split; [done|]. by exists [LoadPlugins].
Qed.

(** *** The shape of a run *)

(** A run of [main] either neither reads, writes nor deletes a map and
    leaves the disk as it is, or ends with the export through one writer,
    started in a world of which the same holds. *)
Lemma main_shape arguments w :
  (exists log,
      forallb noMapIO log = true /\
      events (snd (main env arguments w)) = events w ++ log /\
      files (snd (main env arguments w)) = files w) \/
  (exists log writer sourceFile targetFile w2,
      forallb noMapIO log = true /\
      events w2 = events w ++ log /\
      files w2 = files w /\
      main env arguments w = run (exportWith env writer sourceFile targetFile) w2).
Proof.
  destruct (parse env arguments newCommandLineHandler w) as [[status h] w1] eqn:Hp.
  destruct (parse_effects _ _ _ _ _ Hp) as [Hf1 [l1 [He1 Hl1]]].
  apply fromParser_noMapIO in Hl1.
  destruct status; [destruct (quit h) eqn:Hq|].
  - left. rewrite (main_quit _ _ _ _ Hp Hq). by exists l1.
  - destruct (afterStartup_effects h w1) as [Hf2 [l2 [He2 Hl2]]].
    assert (forallb noMapIO (l1 ++ l2) = true) as Hl12
      by (rewrite forallb_app; by rewrite Hl1, Hl2).
    destruct (exportMap h) eqn:Hx.
    + rewrite (main_export _ _ _ _ Hp Hq Hx).
      destruct (resolveWriter_cases (filesToOpen h) (afterStartup h w1))
        as [[[[writer s] t] Hr] | [e [_ Hr]]].
      * right. exists (l1 ++ l2), writer, s, t, (afterStartup h w1).
        rewrite (exportBranch_resolved _ _ _ _ _ Hr).
        rewrite He2, He1, app_assoc. repeat split; congruence.
      * left. rewrite (exportBranch_failed _ _ _ _ Hr). cbn [snd addEvent events files].
        exists ((l1 ++ l2) ++ [QWarning (message e)]). split.
        { rewrite forallb_app. by rewrite Hl12. }
        rewrite He2, He1, !app_assoc. split; congruence.
    + left. rewrite (main_gui _ _ _ _ Hp Hq Hx), guiBranch_run. cbn [snd events files].
      exists ((l1 ++ l2) ++ ShowMainWindow
              :: (if Qt.isEmpty (filesToOpen h) then [OpenLastFiles]
                  else map OpenFile (filesToOpen h)) ++ [Exec]).
      split.
      { rewrite forallb_app, Hl12. cbn [andb forallb noMapIO].
        rewrite forallb_app. cbn. rewrite andb_true_r.
        destruct (Qt.isEmpty (filesToOpen h)); [reflexivity|].
        induction (filesToOpen h); [reflexivity|]. cbn. assumption. }
      rewrite He2, He1, !app_assoc. split; congruence.
  - left. rewrite (main_malformed _ _ _ _ Hp). by exists l1.
Qed.

(** C4. In a run of [main] in which the reader produced a map, the map and
    each tile set it owns have been deleted exactly once when [main]
    returns, and nothing else has been deleted, whether the writer
    succeeded or failed. *)
Theorem C4_map_and_tilesets_released_once arguments disk sourceFile m :
  let final := snd (main env arguments (initialWorld disk)) in
  ReadMap sourceFile (Some m) ∈ events final ->
  NoDup (owned m) ->
  forall p, released p (events final) = if bool_decide (p ∈ owned m) then 1 else 0.
Proof.
  intros final Hin Hnd p. subst final.
  destruct (main_shape arguments (initialWorld disk))
    as [(log & Hq & He & _) | (log & writer & s & t & w2 & Hq & He & _ & Hrun)].
  - rewrite He in Hin. cbn in Hin. by apply noMapIO_not_read in Hin.
  - rewrite Hrun, exportWith_run in *. cbn [initialWorld events app] in He.
    destruct (readMap env s (files w2)) as [m'|]; cbn [snd events] in *;
      rewrite He in *.
    + assert (m' = m) as ->.
      { rewrite !elem_of_app, !elem_of_cons, list_elem_of_fmap in Hin.
        destruct Hin as [Hin|[[Hin|[Hin|Hin]]|[Hin|[[Hin|Hin]|Hin]]]].
        - by apply noMapIO_not_read in Hin.
        - congruence.
        - discriminate.
        - by apply elem_of_nil in Hin.
        - by destruct Hin as [? [? _]].
        - discriminate.
        - by apply elem_of_nil in Hin.
        - destruct (fst _); [by apply elem_of_nil in Hin|].
          apply list_elem_of_singleton in Hin. discriminate. }
      unfold owned in *. apply NoDup_cons in Hnd as [Hnot Hnd].
      rewrite !released_app, (noMapIO_released _ _ Hq), (released_deletes _ _ Hnd).
      assert (released p (if fst (write writer m t (files w2)) then []
                          else [QWarning (message ExportWriteFailed)]) = 0) as ->
        by (by destruct (fst _)).
      unfold released. cbn [List.filter isDeleteOf length].
      destruct (Nat.eqb_spec p (address m)) as [->|Hne].
      * rewrite (bool_decide_eq_false_2 _ Hnot).
        rewrite bool_decide_eq_true_2 by (by left). reflexivity.
      * assert (bool_decide (p ∈ address m :: tilesets m)
                = bool_decide (p ∈ tilesets m)) as ->.
        { apply bool_decide_ext. rewrite elem_of_cons.
          split; [intros [Heq|H]; [by destruct Hne | exact H] | by right]. }
        cbn. lia.
    + rewrite !elem_of_app, !elem_of_cons in Hin.
      destruct Hin as [Hin|[Hin|[Hin|Hin]]].
      * by apply noMapIO_not_read in Hin.
      * discriminate.
      * discriminate.
      * by apply elem_of_nil in Hin.
Qed.

(** *** Unknown flags *)

Lemma parseTokens_unknown tokens h w :
  existsb (isUnknownFlag (registeredOptions env)) tokens = true ->
  exists h' w',
    parseTokens (registeredOptions env) tokens h w = (MalformedArguments, h', w').
Proof.
  revert h w. induction tokens as [|token rest IH]; intros h w; [discriminate|].
  cbn [existsb parseTokens]. unfold isUnknownFlag at 1.
  destruct (isFlag token); cbn [andb orb]; [|apply IH].
  destruct (findOption (registeredOptions env) token) as [o|]; cbn [orb].
  - destruct (handler o h w) as [h1 w1]. apply IH.
  - intros _. eauto.
Qed.

(** C2, as amended. When some argument is a flag that no registered option
    names, parsing fails with [MalformedArguments] and [main] returns at
    once, with status 0: the world it leaves is the one the parser left,
    with the disk untouched and nothing in the log but what the parser
    printed, so neither the export nor the window was started. *)
Theorem C2_unknown_flag_stops_main_with_status_zero arguments w :
  existsb (isUnknownFlag (registeredOptions env)) (List.tl arguments) = true ->
  exists h w1,
    parse env arguments newCommandLineHandler w = (MalformedArguments, h, w1) /\
    main env arguments w = (0%Z, w1) /\
    files w1 = files w /\
    exists log, events w1 = events w ++ log /\ forallb fromParser log = true.
Proof.
  intros Hu.
  destruct (parseTokens_unknown _ newCommandLineHandler w Hu) as (h & w1 & Hp).
  exists h, w1. split; [exact Hp|]. split; [by eapply main_malformed|].
  by apply parse_effects in Hp.
Qed.

(** *** The version flag *)

Lemma showVersion_showed h w : showedVersion (fst (showVersion env h w)) = true.
Proof. unfold showVersion. by destruct (showedVersion h) eqn:E. Qed.

Lemma showVersion_again h w :
  showedVersion h = true -> showVersion env h w = (h, w).
Proof. unfold showVersion. by intros ->. Qed.

Lemma handler_keeps_showed token o h w :
  findOption (registeredOptions env) token = Some o ->
  showedVersion h = true ->
  showedVersion (fst (handler o h w)) = true.
Proof.
  intros Ho Hs. apply registered_handler in Ho.
  destruct Ho as [[_ ->] | [_ [-> | [-> | ->]]]]; [apply showVersion_showed|done..].
Qed.

(** Once the version has been shown, a further version flag changes
    nothing. *)
Lemma parseTokens_version_again between flag rest h w :
  showedVersion h = true ->
  isVersionFlag flag = true ->
  parseTokens (registeredOptions env) (between ++ flag :: rest) h w
  = parseTokens (registeredOptions env) (between ++ rest) h w.
Proof.
  intros Hs Hflag. revert h w Hs.
  induction between as [|token between IH]; intros h w Hs.
  - cbn [app parseTokens].
    destruct (version_flag_registered _ Hflag) as [-> (o & -> & ->)].
    by rewrite showVersion_again.
  - cbn [app parseTokens]. destruct (isFlag token).
    + destruct (findOption (registeredOptions env) token) as [o|] eqn:Ho; [|done].
      pose proof (handler_keeps_showed token o h w Ho Hs) as Hs'.
      destruct (handler o h w) as [h1 w1]. by apply IH.
    + by apply IH.
Qed.

Lemma parseTokens_drop_repeated before first between second rest h w :
  isVersionFlag first = true ->
  isVersionFlag second = true ->
  parseTokens (registeredOptions env)
    (before ++ first :: between ++ second :: rest) h w
  = parseTokens (registeredOptions env) (before ++ first :: between ++ rest) h w.
Proof.
  intros H1 H2. revert h w.
  induction before as [|token before IH]; intros h w.
  - cbn [app parseTokens].
    destruct (version_flag_registered _ H1) as [-> (o & -> & ->)].
    pose proof (showVersion_showed h w) as Hs.
    destruct (showVersion env h w) as [h1 w1]. by apply parseTokens_version_again.
  - cbn [app parseTokens]. destruct (isFlag token); [|apply IH].
    destruct (findOption (registeredOptions env) token) as [o|]; [|done].
    destruct (handler o h w) as [h1 w1]. apply IH.
Qed.

Lemma versionLines_add e w :
  versionLines env (events (addEvent e w))
  = versionLines env (events w) + (if isVersionLine env e then 1 else 0).
Proof.
  unfold versionLines, addEvent. cbn [events].
  rewrite List.filter_app, length_app. cbn [List.filter].
  by destruct (isVersionLine env e).
Qed.

Lemma handler_budget token o h w :
  findOption (registeredOptions env) token = Some o ->
  versionBudget env (fst (handler o h w)) (snd (handler o h w))
  <= versionBudget env h w.
Proof.
  intros Ho. apply registered_handler in Ho. unfold versionBudget.
  destruct Ho as [[_ ->] | [_ [-> | [-> | ->]]]]; [|done..].
  unfold showVersion. destruct (showedVersion h) eqn:E; cbn [negb fst snd].
  - by rewrite E.
  - rewrite versionLines_add. cbn [showedVersion isVersionLine].
    rewrite String.eqb_refl. lia.
Qed.

Lemma parseTokens_budget tokens h w status h' w' :
  parseTokens (registeredOptions env) tokens h w = (status, h', w') ->
  versionBudget env h' w' <= versionBudget env h w.
Proof.
  revert h w. induction tokens as [|token rest IH]; intros h w.
  - cbn. by intros [= <- <- <-].
  - cbn [parseTokens]. destruct (isFlag token).
    + destruct (findOption (registeredOptions env) token) as [o|] eqn:Ho.
      * pose proof (handler_budget token o h w Ho) as Hb.
        destruct (handler o h w) as [h1 w1]. cbn [fst snd] in Hb.
        intros Hr. apply IH in Hr. lia.
      * intros [= <- <- <-]. unfold versionBudget.
        rewrite versionLines_add. cbn [isVersionLine]. lia.
    + intros Hr. apply IH in Hr. exact Hr.
Qed.

(** A handler never clears [quit], and the version is only ever shown
    together with a request to quit. *)
Lemma handler_quit token o h w :
  findOption (registeredOptions env) token = Some o ->
  (showedVersion h = true -> quit h = true) ->
  let h' := fst (handler o h w) in
  (showedVersion h' = true -> quit h' = true) /\
  (quit h = true \/ requestsQuit token = true -> quit h' = true).
Proof.
  intros Ho Hinv. unfold requestsQuit.
  destruct (String.eqb token "--quit") eqn:Eq.
  { apply String.eqb_eq in Eq. subst token. injection Ho as <-. cbn. auto. }
  apply registered_handler in Ho.
  destruct Ho as [[-> ->] | [-> [-> | [-> | ->]]]]; cbn [orb].
  - unfold showVersion. destruct (showedVersion h) eqn:E; cbn; auto.
  - cbn. auto.
  - cbn. split; [done|]. intros [?|?]; [done|discriminate].
  - cbn. split; [done|]. intros [?|?]; [done|discriminate].
Qed.

Lemma parseTokens_quit tokens h w h' w' :
  parseTokens (registeredOptions env) tokens h w = (ParseOk, h', w') ->
  (showedVersion h = true -> quit h = true) ->
  quit h = true \/ existsb requestsQuit tokens = true ->
  quit h' = true.
Proof.
  revert h w. induction tokens as [|token rest IH]; intros h w.
  - cbn. intros [= <- <-] _ [?|?]; [done|discriminate].
  - cbn [parseTokens existsb]. destruct (isFlag token) eqn:Hflag.
    + destruct (findOption (registeredOptions env) token) as [o|] eqn:Ho; [|done].
      intros Hr Hinv Hq.
      destruct (handler_quit token o h w Ho Hinv) as [Hinv' Hq'].
      destruct (handler o h w) as [h1 w1]. cbn [fst] in *.
      apply (IH _ _ Hr Hinv').
      destruct Hq as [Hq|Hq]; [left; apply Hq'; by left|].
      apply orb_true_iff in Hq as [Hq|Hq]; [left; apply Hq'; by right|by right].
    + intros Hr Hinv Hq. apply (IH _ _ Hr Hinv).
      destruct Hq as [Hq|Hq]; [by left|]. right.
      apply orb_true_iff in Hq as [Hq|Hq]; [|done].
      unfold requestsQuit, isVersionFlag in Hq.
      destruct token as [|c token]; [discriminate|]. cbn in Hflag.
      destruct (Ascii.eqb_spec c "-"); [discriminate|].
      exfalso. repeat (apply orb_true_iff in Hq as [Hq|Hq]);
        apply String.eqb_eq in Hq; congruence.
Qed.

Lemma version_flag_requests_quit tokens :
  existsb isVersionFlag tokens = true -> existsb requestsQuit tokens = true.
Proof.
  rewrite !existsb_exists. intros (t & Hin & Ht). exists t. split; [done|].
  unfold requestsQuit. by rewrite Ht.
Qed.

(** Only the parser prints the version line: what [main] does after it
    adds none. *)
Lemma versionLines_app l1 l2 :
  versionLines env (l1 ++ l2) = versionLines env l1 + versionLines env l2.
Proof. unfold versionLines. by rewrite List.filter_app, length_app. Qed.

Lemma message_not_version e : isVersionLine env (QWarning (message e)) = false.
Proof. by destruct e. Qed.

Lemma versionLines_map {A} (f : A -> Event) (l : list A) :
  (forall x, isVersionLine env (f x) = false) ->
  versionLines env (map f l) = 0.
Proof.
  intros Hf. unfold versionLines. induction l as [|x l IH]; [reflexivity|].
  cbn [map List.filter]. by rewrite Hf.
Qed.

Lemma versionLines_cons e l :
  versionLines env (e :: l)
  = (if isVersionLine env e then 1 else 0) + versionLines env l.
Proof. unfold versionLines. cbn [List.filter]. by destruct (isVersionLine env e). Qed.

Lemma afterStartup_version h w :
  versionLines env (events (afterStartup h w)) = versionLines env (events w).
Proof.
  unfold afterStartup. destruct (disableOpenGL h);
    rewrite !versionLines_add; cbn [isVersionLine]; lia.
Qed.

Lemma main_version_lines arguments w status h w1 :
  parse env arguments newCommandLineHandler w = (status, h, w1) ->
  versionLines env (events (snd (main env arguments w)))
  = versionLines env (events w1).
Proof.
  intros Hp. destruct status; [destruct (quit h) eqn:Hq|].
  - by rewrite (main_quit _ _ _ _ Hp Hq).
  - rewrite <- (afterStartup_version h w1). destruct (exportMap h) eqn:Hx.
    + rewrite (main_export _ _ _ _ Hp Hq Hx).
      destruct (resolveWriter_cases (filesToOpen h) (afterStartup h w1))
        as [[[[writer s] t] Hr] | [e [_ Hr]]].
      * rewrite (exportBranch_resolved _ _ _ _ _ Hr), exportWith_run.
        destruct (readMap env s (files (afterStartup h w1))) as [m|];
          cbn [snd events];
          rewrite ?versionLines_app, ?versionLines_cons, ?message_not_version;
          cbn [isVersionLine]; change (versionLines env []) with 0.
        -- rewrite (versionLines_map Delete) by done.
           destruct (fst (write writer m t (files (afterStartup h w1))));
             rewrite ?versionLines_cons, ?message_not_version;
             change (versionLines env []) with 0; lia.
        -- lia.
      * rewrite (exportBranch_failed _ _ _ _ Hr). cbn [snd].
        rewrite versionLines_add, message_not_version. lia.
    + rewrite (main_gui _ _ _ _ Hp Hq Hx), guiBranch_run. cbn [snd events].
      rewrite versionLines_app, versionLines_cons, versionLines_app,
        versionLines_cons.
      cbn [isVersionLine]. change (versionLines env []) with 0.
      destruct (Qt.isEmpty (filesToOpen h)).
      * rewrite versionLines_cons. cbn [isVersionLine].
        change (versionLines env []) with 0. lia.
      * rewrite (versionLines_map OpenFile) by done. lia.
  - by rewrite (main_malformed _ _ _ _ Hp).
Qed.

(** C10. Showing the version twice is the same as showing it once; a
    command line makes the parser, and the whole run of [main], print the
    version line at most once; dropping a repeated version flag from the
    command line changes neither the outcome of parsing nor what is
    printed; and when parsing succeeds on a command line with a version
    flag, [quit] is set and [main] returns 0 at once. *)
Theorem C10_version_flag_is_idempotent_and_requests_quit arguments w :
  (forall h w0,
      showVersion env (fst (showVersion env h w0)) (snd (showVersion env h w0))
      = showVersion env h w0) /\
  versionLines env (events (snd (parse env arguments newCommandLineHandler w)))
    <= versionLines env (events w) + 1 /\
  versionLines env (events (snd (main env arguments w)))
    <= versionLines env (events w) + 1 /\
  (forall program before first between second rest,
      arguments = program :: before ++ first :: between ++ second :: rest ->
      isVersionFlag first = true ->
      isVersionFlag second = true ->
      parse env arguments newCommandLineHandler w
      = parse env (program :: before ++ first :: between ++ rest)
          newCommandLineHandler w) /\
  (forall h' w',
      parse env arguments newCommandLineHandler w = (ParseOk, h', w') ->
      existsb isVersionFlag (List.tl arguments) = true ->
      quit h' = true /\ main env arguments w = (0%Z, w')).
Proof.
  assert (versionLines env
            (events (snd (parse env arguments newCommandLineHandler w)))
          <= versionLines env (events w) + 1) as Hparse.
  { destruct (parse env arguments newCommandLineHandler w)
      as [[status h'] w'] eqn:Hp.
    apply parseTokens_budget in Hp. unfold versionBudget in Hp.
    cbn [snd showedVersion newCommandLineHandler] in *. lia. }
  split; [|split; [exact Hparse|split; [|split]]].
  - intros h w0. pose proof (showVersion_showed h w0) as Hs.
    destruct (showVersion env h w0) as [h1 w1]. by apply showVersion_again.
  - destruct (parse env arguments newCommandLineHandler w)
      as [[status h'] w'] eqn:Hp.
    by rewrite (main_version_lines _ _ _ _ _ Hp).
  - intros program before first between second rest -> H1 H2.
    unfold parse. cbn [List.tl]. by apply parseTokens_drop_repeated.
  - intros h' w' Hp Hflag.
    assert (quit h' = true) as Hq.
    { eapply parseTokens_quit; [exact Hp|done|].
      right. by apply version_flag_requests_quit. }
    split; [exact Hq|]. by eapply main_quit.
Qed.

(** *** Resolution by the number of positional arguments *)

Lemma resolveWriter_short filesToOpen w :
  length filesToOpen < 2 ->
  resolveWriter env filesToOpen w
  = (Returned 1, addEvent (QWarning (message InsufficientArguments)) w).
Proof.
  intros H. unfold resolveWriter.
  destruct (Nat.ltb_spec (length filesToOpen) 2); [reflexivity|lia].
Qed.

Lemma resolveWriter_two sourceFile targetFile w :
  resolveWriter env [sourceFile; targetFile] w
  = match List.filter (matchesSuffix (Qt.completeSuffix targetFile))
            (pluginWriters env) with
    | [] => (Returned 1, addEvent (QWarning (message NoWriterFound)) w)
    | [x] => (Next (x, sourceFile, targetFile), w)
    | _ :: _ :: _ =>
        (Returned 1, addEvent (QWarning (message AmbiguousFormat)) w)
    end.
Proof.
  unfold resolveWriter. cbn [length Nat.ltb Nat.leb]. rewrite exportArguments_two.
  unfold bind. rewrite foreachWriter_suffix.
  by destruct (List.filter _ (pluginWriters env)) as [|x [|y l]].
Qed.

Lemma resolveWriter_more filter sourceFile targetFile more w :
  resolveWriter env (filter :: sourceFile :: targetFile :: more) w
  = match last (List.filter (matchesFilter filter) (pluginWriters env)) with
    | Some x => (Next (x, sourceFile, targetFile), w)
    | None => (Returned 1, addEvent (QWarning (message NoWriterFound)) w)
    end.
Proof.
  unfold resolveWriter. cbn [length Nat.ltb Nat.leb]. rewrite exportArguments_more.
  unfold bind. rewrite foreachWriter_filter.
  by destruct (last (List.filter _ (pluginWriters env))).
Qed.

(** C5, as amended. Resolution yields at most one writer. Without a filter
    (two positional arguments) that is the only writer matching the suffix
    of the target: with none [NoWriterFound] is reported and with two or
    more [AmbiguousFormat], both ending [main] with status 1. With a filter
    (three or more positional arguments) [NoWriterFound] is reported when
    no writer matches it; when one or several match, the last of them in
    registry order is the writer used and nothing is reported. *)
Theorem C5_one_writer_or_error_except_last_filter_match w :
  (forall sourceFile targetFile,
      resolveWriter env [sourceFile; targetFile] w
      = match List.filter (matchesSuffix (Qt.completeSuffix targetFile))
              (pluginWriters env) with
        | [] => (Returned 1, addEvent (QWarning (message NoWriterFound)) w)
        | [x] => (Next (x, sourceFile, targetFile), w)
        | _ :: _ :: _ =>
            (Returned 1, addEvent (QWarning (message AmbiguousFormat)) w)
        end) /\
  (forall filter sourceFile targetFile more,
      resolveWriter env (filter :: sourceFile :: targetFile :: more) w
      = match last (List.filter (matchesFilter filter) (pluginWriters env)) with
        | Some x => (Next (x, sourceFile, targetFile), w)
        | None => (Returned 1, addEvent (QWarning (message NoWriterFound)) w)
        end).
Proof.
  split.
  - intros. apply resolveWriter_two.
  - intros. apply resolveWriter_more.
Qed.

(** C8, as amended. With fewer than two positional arguments the export
    ends at once with [InsufficientArguments] and status 1. Two positional
    arguments are the source and the target, without filter. Of three or
    more, the first is the filter, the second the source and the third the
    target; what follows the third is ignored, and [InsufficientArguments]
    is not reported. *)
Theorem C8_fewer_than_two_is_an_error_more_than_three_is_not filesToOpen w :
  (length filesToOpen < 2 ->
   resolveWriter env filesToOpen w
   = (Returned 1, addEvent (QWarning (message InsufficientArguments)) w)) /\
  (forall sourceFile targetFile,
      filesToOpen = [sourceFile; targetFile] ->
      exportArguments filesToOpen = (None, sourceFile, targetFile)) /\
  (forall filter sourceFile targetFile more,
      filesToOpen = filter :: sourceFile :: targetFile :: more ->
      exportArguments filesToOpen = (Some filter, sourceFile, targetFile) /\
      resolveWriter env filesToOpen w
      = resolveWriter env [filter; sourceFile; targetFile] w) /\
  (2 <= length filesToOpen ->
   resolveWriter env filesToOpen w
   <> (Returned 1, addEvent (QWarning (message InsufficientArguments)) w)).
Proof.
  split; [apply resolveWriter_short|].
  split; [by intros s t ->|].
  split.
  - intros f s t more ->. split; [reflexivity|].
    by rewrite !resolveWriter_more.
  - intros Hlen.
    destruct filesToOpen as [|f [|s [|t more]]]; cbn in Hlen; [lia..| |].
    + rewrite resolveWriter_two.
      destruct (List.filter _ (pluginWriters env)) as [|x [|y l]];
        [|discriminate|]; intros [= H%app_inv_head]; discriminate.
    + rewrite resolveWriter_more.
      destruct (last (List.filter _ (pluginWriters env))); [discriminate|].
      intros [= H%app_inv_head]. discriminate.
Qed.

(** C9. When the export fails while the writer is being resolved, [main]
    returns 1 in the world in which the export started with nothing added
    but the line that reports the failure: the disk is the one [main]
    started with, and before that line the log has grown by events that
    read, write and delete no map. *)
Theorem C9_failed_resolution_reads_and_writes_nothing
    arguments w h w1 code w' :
  parse env arguments newCommandLineHandler w = (ParseOk, h, w1) ->
  quit h = false ->
  exportMap h = true ->
  resolveWriter env (filesToOpen h) (afterStartup h w1) = (Returned code, w') ->
  main env arguments w = (1%Z, w') /\
  files w' = files w /\
  exists log e,
    w' = addEvent (QWarning (message e)) (afterStartup h w1) /\
    events w' = events w ++ log ++ [QWarning (message e)] /\
    forallb noMapIO log = true /\
    (e = InsufficientArguments \/ e = AmbiguousFormat \/ e = NoWriterFound).
Proof.
  intros Hp Hq Hx Hr.
  destruct (parse_effects _ _ _ _ _ Hp) as [Hf1 [l1 [He1 Hl1%fromParser_noMapIO]]].
  destruct (afterStartup_effects h w1) as [Hf2 [l2 [He2 Hl2]]].
  rewrite (main_export _ _ _ _ Hp Hq Hx), (exportBranch_failed _ _ _ _ Hr).
  destruct (resolveWriter_cases (filesToOpen h) (afterStartup h w1))
    as [[r Hr'] | [e [He Hr']]]; rewrite Hr' in Hr; [discriminate|].
  injection Hr as <- <-. split; [reflexivity|].
  cbn [addEvent files events]. split; [congruence|].
  exists (l1 ++ l2), e. split; [reflexivity|].
  rewrite He2, He1, <- !app_assoc.
  split; [reflexivity|]. split; [|exact He].
  rewrite forallb_app. by rewrite Hl1, Hl2.
Qed.

(** C7. Once the command line is parsed, [main] returns 0 when [quit] is
    set, which the quit flag and the version flags do. In export mode it
    returns 1 with fewer than two positional arguments, 1 when no writer of
    the whole registry matches, 1 when two or more writers match the
    suffix, 1 in general when resolution fails, 1 when the source cannot be
    loaded, 1 when the writer fails, and 0 when the writer succeeds. *)
Theorem C7_exit_status_of_export_and_quit arguments w h w1 :
  parse env arguments newCommandLineHandler w = (ParseOk, h, w1) ->
  let code := fst (main env arguments w) in
  let writers := pluginWriters env in
  (quit h = true -> code = 0%Z) /\
  (existsb requestsQuit (List.tl arguments) = true -> code = 0%Z) /\
  (quit h = false -> exportMap h = true ->
   (length (filesToOpen h) < 2 -> code = 1%Z) /\
   (forall sourceFile targetFile,
       filesToOpen h = [sourceFile; targetFile] ->
       let matching :=
         List.filter (matchesSuffix (Qt.completeSuffix targetFile)) writers in
       (matching = [] -> code = 1%Z) /\
       (2 <= length matching -> code = 1%Z)) /\
   (forall filter sourceFile targetFile more,
       filesToOpen h = filter :: sourceFile :: targetFile :: more ->
       List.filter (matchesFilter filter) writers = [] ->
       code = 1%Z) /\
   (forall status w',
       resolveWriter env (filesToOpen h) (afterStartup h w1)
       = (Returned status, w') ->
       code = 1%Z) /\
   (forall writer sourceFile targetFile w',
       resolveWriter env (filesToOpen h) (afterStartup h w1)
       = (Next (writer, sourceFile, targetFile), w') ->
       (readMap env sourceFile (files w) = None -> code = 1%Z) /\
       (forall m,
           readMap env sourceFile (files w) = Some m ->
           (fst (write writer m targetFile (files w)) = false -> code = 1%Z) /\
           (fst (write writer m targetFile (files w)) = true -> code = 0%Z)))).
Proof.
  intros Hp code writers.
  assert (quit h = true -> code = 0%Z) as Hquit.
  { intros Hq. subst code. by rewrite (main_quit _ _ _ _ Hp Hq). }
  split; [exact Hquit|]. split.
  { intros Hflag. apply Hquit.
    eapply parseTokens_quit; [exact Hp|done|by right]. }
  intros Hq Hx. subst code. rewrite (main_export _ _ _ _ Hp Hq Hx).
  assert (forall status w',
             resolveWriter env (filesToOpen h) (afterStartup h w1)
             = (Returned status, w') ->
             fst (run (exportBranch env (filesToOpen h)) (afterStartup h w1)) = 1%Z)
    as Hfail.
  { intros status w' Hr. rewrite (exportBranch_failed _ _ _ _ Hr). cbn [fst].
    destruct (resolveWriter_cases (filesToOpen h) (afterStartup h w1))
      as [[r Hr'] | [e [_ Hr']]]; rewrite Hr' in Hr; congruence. }
  assert (forall writer sourceFile targetFile w',
             resolveWriter env (filesToOpen h) (afterStartup h w1)
             = (Next (writer, sourceFile, targetFile), w') ->
             fst (run (exportBranch env (filesToOpen h)) (afterStartup h w1))
             = match readMap env sourceFile (files w) with
               | None => 1%Z
               | Some m =>
                   if fst (write writer m targetFile (files w)) then 0%Z else 1%Z
               end)
    as Hdone.
  { intros writer s t w' Hr.
    destruct (resolveWriter_cases (filesToOpen h) (afterStartup h w1))
      as [[r Hr'] | [e [_ Hr']]]; rewrite Hr' in Hr; [|discriminate].
    injection Hr as -> <-.
    rewrite (exportBranch_resolved _ _ _ _ _ Hr'), exportWith_run.
    destruct (afterStartup_effects h w1) as [-> _].
    destruct (parse_effects _ _ _ _ _ Hp) as [-> _].
    by destruct (readMap env s (files w)). }
  split; [|split; [|split; [|split; [exact Hfail|]]]].
  - intros Hlen. eapply Hfail. by apply resolveWriter_short.
  - intros s t Hfiles matching. subst matching.
    pose proof (resolveWriter_two s t (afterStartup h w1)) as Hr.
    rewrite <- Hfiles in Hr. fold writers in Hr. split.
    + intros Hm. rewrite Hm in Hr. by eapply Hfail.
    + intros Hm. destruct (List.filter _ writers) as [|x [|y l]];
        cbn in Hm; [lia|lia|]. by eapply Hfail.
  - intros f s t more Hfiles Hm.
    pose proof (resolveWriter_more f s t more (afterStartup h w1)) as Hr.
    rewrite <- Hfiles in Hr. fold writers in Hr. rewrite Hm in Hr.
    cbn [last] in Hr. by eapply Hfail.
  - intros writer s t w' Hr. rewrite (Hdone _ _ _ _ Hr). split.
    + by intros ->.
    + intros m ->. split; by intros ->.
Qed.

End Run.

(** ** Matching on the filter and on the complete suffix *)

Lemma hasChar_app c a b : hasChar c (a +:+ b) = hasChar c a || hasChar c b.
Proof.
  induction a as [|d a IH]; [reflexivity|].
  simpl. rewrite IH. apply orb_assoc.
Qed.

Lemma fileNameFrom_plain acc path :
  hasChar "/" path = false -> Qt.fileNameFrom acc path = acc.
Proof.
  revert acc. induction path as [|c path IH]; intros acc; [reflexivity|].
  simpl. destruct (Ascii.eqb c "/"); cbn [orb]; [discriminate|].
  apply IH.
Qed.

Lemma fileNameFrom_dir acc dir name :
  hasChar "/" name = false ->
  Qt.fileNameFrom acc (dir +:+ String "/" name) = name.
Proof.
  intros Hname. revert acc. induction dir as [|c dir IH]; intros acc.
  - simpl. by apply fileNameFrom_plain.
  - simpl. destruct (Ascii.eqb c "/"); apply IH.
Qed.

Lemma afterFirstDot_app base rest :
  hasChar "." base = false ->
  Qt.afterFirstDot (base +:+ String "." rest) = rest.
Proof.
  induction base as [|c base IH]; [reflexivity|].
  simpl. destruct (Ascii.eqb c "."); cbn [orb]; [discriminate|].
  apply IH.
Qed.

Lemma completeSuffix_plain base rest :
  hasChar "/" base = false ->
  hasChar "." base = false ->
  hasChar "/" rest = false ->
  Qt.completeSuffix (base +:+ "." +:+ rest) = rest.
Proof.
  intros Hb Hd Hr. unfold Qt.completeSuffix, Qt.fileName.
  rewrite fileNameFrom_plain.
  - by apply afterFirstDot_app.
  - rewrite hasChar_app, Hb. simpl. exact Hr.
Qed.

Lemma completeSuffix_dir dir base rest :
  hasChar "/" base = false ->
  hasChar "." base = false ->
  hasChar "/" rest = false ->
  Qt.completeSuffix (dir +:+ "/" +:+ base +:+ "." +:+ rest) = rest.
Proof.
  intros Hb Hd Hr. unfold Qt.completeSuffix, Qt.fileName.
  change (dir +:+ "/" +:+ base +:+ "." +:+ rest)
    with (dir +:+ String "/" (base +:+ String "." rest)).
  rewrite fileNameFrom_dir.
  - by apply afterFirstDot_app.
  - rewrite hasChar_app, Hb. simpl. exact Hr.
Qed.

Lemma matchesSuffix_true suffix writer :
  matchesSuffix suffix writer = true <->
  exists p, p ∈ nameFilters writer /\
            Qt.contains p suffix Qt.CaseInsensitive = true.
Proof.
  unfold matchesSuffix, Qt.listFilter.
  induction (nameFilters writer) as [|q l IH].
  - cbn. split; [discriminate|]. by intros (p & Hp%elem_of_nil & _).
  - cbn [List.filter]. destruct (Qt.contains q suffix Qt.CaseInsensitive) eqn:Hq.
    + cbn. split; [|done]. intros _. exists q. split; [by left|done].
    + rewrite IH. split.
      * intros (p & Hp & Hc). exists p. split; [by right|done].
      * intros (p & Hp & Hc). apply elem_of_cons in Hp as [->|Hp]; [congruence|].
        by exists p.
Qed.

Lemma matchesFilter_true filter writer :
  matchesFilter filter writer = true <->
  exists p, p ∈ nameFilters writer /\ Qt.foldCase p = Qt.foldCase filter.
Proof.
  unfold matchesFilter, Qt.listContains. rewrite existsb_exists.
  split; intros (p & Hp & He); exists p.
  - split; [by apply list_elem_of_In|]. by apply String.eqb_eq in He.
  - split; [by apply list_elem_of_In|]. by apply String.eqb_eq.
Qed.

(** C3. The complete suffix of a path is what follows the first dot of its
    file name; without a filter the writers are resolved on the complete
    suffix of the target file, a writer matching when one of its name
    filters contains that suffix; the complete suffix of [level1.tmx.bak]
    is [tmx.bak], which a writer whose only name filter is [*.tmx] does not
    match and a writer with the name filter [*.tmx.bak] does. *)
Theorem C3_writers_are_matched_on_the_complete_suffix :
  (forall dir base rest,
      hasChar "/" base = false ->
      hasChar "." base = false ->
      hasChar "/" rest = false ->
      Qt.completeSuffix (base +:+ "." +:+ rest) = rest /\
      Qt.completeSuffix (dir +:+ "/" +:+ base +:+ "." +:+ rest) = rest) /\
  (forall env sourceFile targetFile w,
      resolveWriter env [sourceFile; targetFile] w
      = match List.filter (matchesSuffix (Qt.completeSuffix targetFile))
              (pluginWriters env) with
        | [] => (Returned 1, addEvent (QWarning (message NoWriterFound)) w)
        | [x] => (Next (x, sourceFile, targetFile), w)
        | _ :: _ :: _ =>
            (Returned 1, addEvent (QWarning (message AmbiguousFormat)) w)
        end) /\
  (forall suffix writer,
      matchesSuffix suffix writer = true <->
      exists p, p ∈ nameFilters writer /\
                Qt.contains p suffix Qt.CaseInsensitive = true) /\
  Qt.completeSuffix "level1.tmx.bak" = "tmx.bak" /\
  (forall writer,
      nameFilters writer = ["*.tmx"] ->
      matchesSuffix (Qt.completeSuffix "level1.tmx.bak") writer = false) /\
  (forall writer,
      "*.tmx.bak" ∈ nameFilters writer ->
      matchesSuffix (Qt.completeSuffix "level1.tmx.bak") writer = true).
Proof.
  split; [|split; [|split; [|split; [|split]]]].
  - intros dir base rest Hb Hd Hr. split.
    + by apply completeSuffix_plain.
    + by apply completeSuffix_dir.
  - intros. apply resolveWriter_two.
  - apply matchesSuffix_true.
  - reflexivity.
  - intros writer Hw. unfold matchesSuffix. by rewrite Hw.
  - intros writer Hw. apply matchesSuffix_true. by exists "*.tmx.bak".
Qed.

(** C6. With three or more positional arguments the first one is the
    filter, the second the source and the third the target. A writer then
    matches exactly when one of its name filters equals the filter up to
    the case of letters; the loop over the writers gives the same result
    for every suffix, and resolution is decided by the writers that match
    the filter alone. *)
Theorem C6_first_of_three_is_the_filter_and_suffix_is_ignored
    (filesToOpen : list string) :
  3 <= length filesToOpen ->
  exists filter sourceFile targetFile more,
    filesToOpen = filter :: sourceFile :: targetFile :: more /\
    exportArguments filesToOpen = (Some filter, sourceFile, targetFile) /\
    (forall writer,
        matchesFilter filter writer = true <->
        exists p, p ∈ nameFilters writer /\
                  Qt.foldCase p = Qt.foldCase filter) /\
    (forall suffix suffix' writers chosen w,
        foreachWriter (Some filter) suffix writers chosen w
        = foreachWriter (Some filter) suffix' writers chosen w) /\
    (forall env w,
        resolveWriter env filesToOpen w
        = match last (List.filter (matchesFilter filter) (pluginWriters env)) with
          | Some x => (Next (x, sourceFile, targetFile), w)
          | None =>
              (Returned 1, addEvent (QWarning (message NoWriterFound)) w)
          end).
Proof.
  intros Hlen. destruct filesToOpen as [|f [|s [|t more]]]; cbn in Hlen; [lia..|].
  exists f, s, t, more. split; [reflexivity|]. split; [reflexivity|].
  split; [apply matchesFilter_true|]. split.
  - intros. by rewrite !foreachWriter_filter.
  - intros. apply resolveWriter_more.
Qed.


(** ** The rest of [main] *)

Section Coverage.

Variable env : Collaborators.

Lemma occurrences_app p l1 l2 :
  occurrences p (l1 ++ l2) = occurrences p l1 + occurrences p l2.
Proof. unfold occurrences. by rewrite List.filter_app, length_app. Qed.

Lemma occurrences_none p log :
  forallb (fun e => negb (p e)) log = true -> occurrences p log = 0.
Proof.
  unfold occurrences. induction log as [|e log IH]; [done|].
  cbn. intros [He Hl]%andb_true_iff. destruct (p e); [discriminate|auto].
Qed.

Lemma occurrences_map {A} p (f : A -> Event) (l : list A) :
  (forall x, p (f x) = false) -> occurrences p (map f l) = 0.
Proof.
  intros Hf. unfold occurrences. induction l as [|x l IH]; [reflexivity|].
  cbn [map List.filter]. by rewrite Hf.
Qed.

Lemma exportBranch_outcome filesToOpen w :
  ExportRun env filesToOpen w
    (fst (run (exportBranch env filesToOpen) w))
    (snd (run (exportBranch env filesToOpen) w)).
Proof.
  destruct (resolveWriter_cases env filesToOpen w)
    as [[[[writer s] t] Hr] | [e [He Hr]]].
  - rewrite (exportBranch_resolved _ _ _ _ _ _ Hr), exportWith_run.
    destruct (readMap env s (files w)) as [m|] eqn:Hm; cbn [fst snd].
    + by eapply ExportWritten.
    + by eapply ExportUnreadable.
  - rewrite (exportBranch_failed _ _ _ _ _ Hr). cbn [fst snd].
    by apply ExportUnresolved.
Qed.

(** *** What the parser and the start-up leave in the log *)

Lemma parse_occurrences p arguments w status h w1 :
  (forall e, fromParser e = true -> p e = false) ->
  parse env arguments newCommandLineHandler w = (status, h, w1) ->
  occurrences p (events w1) = occurrences p (events w).
Proof.
  intros Hp Hparse.
  destruct (parse_effects _ _ _ _ _ _ Hparse) as [_ [log [-> Hlog]]].
  rewrite occurrences_app, (occurrences_none p log); [lia|].
  rewrite forallb_forall in *. intros e He. by rewrite Hp; [|apply Hlog].
Qed.

Lemma afterStartup_occurrences p h w :
  occurrences p (events (afterStartup h w))
  = occurrences p (events w)
    + (if disableOpenGL h then occurrences p [SetUseOpenGL false] else 0)
    + occurrences p [LoadPlugins].
Proof.
  unfold afterStartup. destruct (disableOpenGL h); cbn [addEvent events];
    rewrite ?occurrences_app; lia.
Qed.

Lemma afterStartup_files h w : files (afterStartup h w) = files w.
Proof. unfold afterStartup. by destruct (disableOpenGL h). Qed.

(** *** The export, from the command line to the exit status *)

(** X9. When the reader cannot load the source, [main] returns 1 after the
    read and its report: no writer is called, nothing is deleted and the
    disk stays as it was. *)
Theorem unreadable_source_is_neither_written_nor_deleted
    arguments w h w1 writer sourceFile targetFile w' :
  parse env arguments newCommandLineHandler w = (ParseOk, h, w1) ->
  quit h = false ->
  exportMap h = true ->
  resolveWriter env (filesToOpen h) (afterStartup h w1)
  = (Next (writer, sourceFile, targetFile), w') ->
  readMap env sourceFile (files w) = None ->
  main env arguments w
  = (1%Z,
     {| events := events (afterStartup h w1)
                  ++ [ReadMap sourceFile None;
                      QWarning (message SourceLoadFailed)];
        files := files w |}).
Proof.
  intros Hp Hq Hx Hr Hread.
  destruct (parse_effects _ _ _ _ _ _ Hp) as [Hf _].
  rewrite (main_export _ _ _ _ _ Hp Hq Hx).
  destruct (resolveWriter_cases env (filesToOpen h) (afterStartup h w1))
    as [[r Hr'] | [e [_ Hr']]]; rewrite Hr' in Hr; [|discriminate].
  injection Hr as -> <-.
  rewrite (exportBranch_resolved _ _ _ _ _ _ Hr'), exportWith_run.
  rewrite afterStartup_files, Hf, Hread. reflexivity.
Qed.

(** X10. When the reader loads the source, the chosen writer is called once,
    with the map that was read, the target file and the disk as [main]
    found it; the tile sets and then the map are deleted after that call;
    the disk [main] leaves is the one the writer left, also when the writer
    failed. *)
Theorem loaded_map_is_written_then_deleted
    arguments w h w1 writer sourceFile targetFile w' m :
  parse env arguments newCommandLineHandler w = (ParseOk, h, w1) ->
  quit h = false ->
  exportMap h = true ->
  resolveWriter env (filesToOpen h) (afterStartup h w1)
  = (Next (writer, sourceFile, targetFile), w') ->
  readMap env sourceFile (files w) = Some m ->
  main env arguments w
  = ((if fst (write writer m targetFile (files w)) then 0 else 1)%Z,
     {| events := events (afterStartup h w1)
                  ++ [ReadMap sourceFile (Some m);
                      WriteMap writer m targetFile]
                  ++ map Delete (tilesets m)
                  ++ [Delete (address m)]
                  ++ (if fst (write writer m targetFile (files w)) then []
                      else [QWarning (message ExportWriteFailed)]);
        files := snd (write writer m targetFile (files w)) |}).
Proof.
  intros Hp Hq Hx Hr Hread.
  destruct (parse_effects _ _ _ _ _ _ Hp) as [Hf _].
  rewrite (main_export _ _ _ _ _ Hp Hq Hx).
  destruct (resolveWriter_cases env (filesToOpen h) (afterStartup h w1))
    as [[r Hr'] | [e [_ Hr']]]; rewrite Hr' in Hr; [|discriminate].
  injection Hr as -> <-.
  rewrite (exportBranch_resolved _ _ _ _ _ _ Hr'), exportWith_run.
  rewrite afterStartup_files, Hf, Hread. reflexivity.
Qed.

(** X11. In export mode the status is 0 or 1. With status 0 the export prints
    nothing; with status 1 the last thing it does is to print one line,
    the only one it prints. *)
Theorem export_prints_one_line_exactly_when_it_fails arguments w h w1 :
  parse env arguments newCommandLineHandler w = (ParseOk, h, w1) ->
  quit h = false ->
  exportMap h = true ->
  exists tail,
    events (snd (main env arguments w)) = events (afterStartup h w1) ++ tail /\
    ((fst (main env arguments w) = 0%Z /\ occurrences isWarning tail = 0) \/
     (fst (main env arguments w) = 1%Z /\
      exists before e,
        tail = before ++ [QWarning (message e)] /\
        occurrences isWarning before = 0)).
Proof.
  intros Hp Hq Hx. rewrite (main_export _ _ _ _ _ Hp Hq Hx).
  destruct (exportBranch_outcome (filesToOpen h) (afterStartup h w1))
    as [e He Hr | writer s t Hr Hread | writer s t m Hr Hread].
  - exists [QWarning (message e)]. split; [reflexivity|].
    right. split; [reflexivity|]. by exists [], e.
  - eexists. split; [reflexivity|].
    right. split; [reflexivity|].
    by exists [ReadMap s None], SourceLoadFailed.
  - eexists. cbn [events]. split; [reflexivity|].
    destruct (fst (write writer m t (files (afterStartup h w1)))).
    + left. split; [reflexivity|].
      rewrite !occurrences_app, (occurrences_map isWarning Delete) by done.
      reflexivity.
    + right. split; [reflexivity|].
      exists ([ReadMap s (Some m); WriteMap writer m t]
              ++ map Delete (tilesets m) ++ [Delete (address m)]),
        ExportWriteFailed.
      split; [by rewrite <- !app_assoc|].
      rewrite !occurrences_app, (occurrences_map isWarning Delete) by done.
      reflexivity.
Qed.


(** *** The disk *)


(** *** Start-up *)

(** X3. The plugins are loaded once, and only in a run that gets past the
    parser and the quit flag. The OpenGL preference is switched off once in
    such a run when the flag for it was given, however often, and in no
    other run; it is never switched on. *)
Theorem startup_runs_once_after_the_quit_check arguments w status h w1 :
  parse env arguments newCommandLineHandler w = (status, h, w1) ->
  let final := events (snd (main env arguments w)) in
  let proceeds := parsed status && negb (quit h) in
  occurrences isLoadPlugins final
  = occurrences isLoadPlugins (events w) + (if proceeds then 1 else 0) /\
  occurrences (isSetUseOpenGL false) final
  = occurrences (isSetUseOpenGL false) (events w)
    + (if proceeds && disableOpenGL h then 1 else 0) /\
  occurrences (isSetUseOpenGL true) final
  = occurrences (isSetUseOpenGL true) (events w).
Proof.
  intros Hp final proceeds. subst final proceeds.
  assert (forall p,
             (forall e, fromParser e = true -> p e = false) ->
             (forall e, noMapIO e = false -> p e = false) ->
             (forall e, isGuiEvent e = true -> p e = false) ->
             occurrences p (events (snd (main env arguments w)))
             = occurrences p (events w)
               + (if parsed status && negb (quit h)
                  then (if disableOpenGL h
                        then occurrences p [SetUseOpenGL false] else 0)
                       + occurrences p [LoadPlugins]
                  else 0)) as Hcount.
  { intros p Hparser Hmap Hgui.
    rewrite <- (parse_occurrences p _ _ _ _ _ Hparser Hp).
    destruct status; [destruct (quit h) eqn:Hq|]; cbn [parsed negb andb].
    - rewrite (main_quit _ _ _ _ _ Hp Hq). cbn [snd]. lia.
    - pose proof (afterStartup_occurrences p h w1) as Hs.
      destruct (exportMap h) eqn:Hx.
      + rewrite (main_export _ _ _ _ _ Hp Hq Hx).
        destruct (exportBranch_outcome (filesToOpen h) (afterStartup h w1))
          as [e He Hr | writer s t Hr Hread | writer s t m Hr Hread];
          cbn [addEvent events]; rewrite !occurrences_app.
        * unfold occurrences at 2. cbn [List.filter].
          rewrite (Hparser (QWarning _)) by done. cbn [length]. lia.
        * unfold occurrences at 2. cbn [List.filter].
          rewrite (Hmap (ReadMap _ _)), (Hparser (QWarning _)) by done.
          cbn [length]. lia.
        * rewrite (occurrences_map p Delete) by (intros; by apply Hmap).
          unfold occurrences at 2 3. cbn [List.filter].
          rewrite (Hmap (ReadMap _ _)), (Hmap (WriteMap _ _ _)),
            (Hmap (Delete _)) by done.
          destruct (fst (write writer m t (files (afterStartup h w1))));
            unfold occurrences at 2; cbn [List.filter length];
            rewrite ?(Hparser (QWarning _)) by done; cbn [length]; lia.
      + rewrite (main_gui _ _ _ _ _ Hp Hq Hx), guiBranch_run. cbn [snd events].
        change (ShowMainWindow :: ?l) with ([ShowMainWindow] ++ l).
        rewrite !occurrences_app.
        assert (occurrences p [ShowMainWindow] = 0) as ->
          by (apply occurrences_none; cbn; by rewrite Hgui).
        assert (occurrences p [Exec] = 0) as ->
          by (apply occurrences_none; cbn; by rewrite Hgui).
        destruct (Qt.isEmpty (filesToOpen h)).
        * assert (occurrences p [OpenLastFiles] = 0) as ->
            by (apply occurrences_none; cbn; by rewrite Hgui).
          lia.
        * rewrite (occurrences_map p OpenFile) by (intros; by apply Hgui). lia.
    - rewrite (main_malformed _ _ _ _ _ Hp). cbn [snd]. lia. }
  split; [|split].
  - rewrite (Hcount isLoadPlugins); [|by intros []..].
    destruct (parsed status && negb (quit h)); [|lia].
    destruct (disableOpenGL h); cbn; lia.
  - rewrite (Hcount (isSetUseOpenGL false)); [|by intros []..].
    destruct (parsed status && negb (quit h)); cbn [andb]; [|lia].
    destruct (disableOpenGL h); cbn; lia.
  - rewrite (Hcount (isSetUseOpenGL true)); [|by intros []..].
    destruct (parsed status && negb (quit h)); [|lia].
    destruct (disableOpenGL h); cbn; lia.
Qed.

(** *** The main window *)


(** *** The handlers of the flags *)

Lemma registered_option o :
  o ∈ registeredOptions env ->
  handler o = showVersion env \/ handler o = justQuit \/
  handler o = setDisableOpenGL \/ handler o = setExportMap.
Proof.
  unfold registeredOptions. rewrite !elem_of_cons.
  intros [-> | [-> | [-> | [-> | H%elem_of_nil]]]]; cbn; auto. done.
Qed.

(** X1. Running the handler of a flag twice is the same as running it once,
    and the handlers of two flags give the same result in either order:
    what the registered flags do to the handler and to the output depends
    neither on their order nor on their repetition. *)
Theorem flag_handlers_are_idempotent_and_commute o1 o2 h w :
  o1 ∈ registeredOptions env ->
  o2 ∈ registeredOptions env ->
  andThen (handler o1) (handler o1) h w = handler o1 h w /\
  andThen (handler o1) (handler o2) h w = andThen (handler o2) (handler o1) h w.
Proof.
  intros H1%registered_option H2%registered_option. unfold andThen.
  destruct H1 as [-> | [-> | [-> | ->]]], H2 as [-> | [-> | [-> | ->]]];
    unfold showVersion, justQuit, setDisableOpenGL, setExportMap;
    destruct h as [q [] d x f]; cbn; split; reflexivity.
Qed.

(** *** A command line that only asks to quit *)

Lemma parseTokens_silent tokens h w :
  forallb (fun t => negb (isUnknownFlag (registeredOptions env) t)
                    && negb (isVersionFlag t)) tokens = true ->
  exists h', parseTokens (registeredOptions env) tokens h w = (ParseOk, h', w).
Proof.
  revert h. induction tokens as [|token rest IH]; intros h; [by exists h|].
  cbn [forallb parseTokens]. unfold isUnknownFlag at 1.
  intros [[Hk Hv%negb_true_iff]%andb_true_iff Hrest]%andb_true_iff.
  destruct (isFlag token); [|by apply IH].
  destruct (findOption (registeredOptions env) token) as [o|] eqn:Ho;
    [|discriminate].
  apply registered_handler in Ho.
  destruct Ho as [[Hv' _] | [_ [-> | [-> | ->]]]]; [congruence|..];
    cbn; by apply IH.
Qed.

(** X2. With the quit flag, no version flag and no unknown flag on the command
    line, [main] returns 0 and has done nothing at all: nothing is printed,
    the preference is not changed even with the flag for it, the plugins
    are not loaded, and nothing is exported even with the export flag. *)
Theorem quit_flag_alone_does_nothing arguments w :
  forallb (fun t => negb (isUnknownFlag (registeredOptions env) t)
                    && negb (isVersionFlag t)) (List.tl arguments) = true ->
  "--quit" ∈ List.tl arguments ->
  main env arguments w = (0%Z, w).
Proof.
  intros Hsilent Hquit.
  destruct (parseTokens_silent _ newCommandLineHandler w Hsilent) as [h' Hp].
  apply (main_quit env arguments w h' w Hp).
  eapply parseTokens_quit; [exact Hp|done|].
  right. apply existsb_exists. exists "--quit".
  split; [by apply list_elem_of_In|reflexivity].
Qed.

(** *** What resolution yields *)

(** X5. A resolved writer is one of the registry and resolution has no effect;
    the source and the target are the two positional arguments, or the
    second and third of three or more. Without a filter the writer is the
    only one of the registry that matches the complete suffix of the
    target; with a filter it matches the filter. *)
Theorem resolved_writer_is_registered_and_matches
    filesToOpen w writer sourceFile targetFile w' :
  resolveWriter env filesToOpen w = (Next (writer, sourceFile, targetFile), w') ->
  w' = w /\
  writer ∈ pluginWriters env /\
  ((filesToOpen = [sourceFile; targetFile] /\
    matchesSuffix (Qt.completeSuffix targetFile) writer = true /\
    forall x, x ∈ pluginWriters env ->
              matchesSuffix (Qt.completeSuffix targetFile) x = true ->
              x = writer) \/
   (exists filter more,
       filesToOpen = filter :: sourceFile :: targetFile :: more /\
       matchesFilter filter writer = true)).
Proof.
  destruct filesToOpen as [|a [|b [|c more]]].
  - by rewrite resolveWriter_short by (cbn; lia).
  - by rewrite resolveWriter_short by (cbn; lia).
  - rewrite resolveWriter_two.
    destruct (List.filter _ (pluginWriters env)) as [|x [|y l]] eqn:Hm;
      [discriminate| |discriminate].
    intros [= -> -> -> ->]. split; [reflexivity|].
    assert (forall z, z ∈ pluginWriters env /\
                      matchesSuffix (Qt.completeSuffix targetFile) z = true
                      <-> z = writer) as Hin.
    { intros z. rewrite list_elem_of_In, <- filter_In, Hm. cbn.
      split; [intros [<-|[]]; reflexivity | intros ->; by left]. }
    split; [by apply Hin|]. left. split; [reflexivity|].
    split; [by apply Hin|]. intros z Hz Hmz. by apply Hin.
  - rewrite resolveWriter_more.
    destruct (last (List.filter _ (pluginWriters env))) as [x|] eqn:Hm;
      [|discriminate].
    intros [= -> -> -> ->]. split; [reflexivity|].
    apply last_Some_elem_of, list_elem_of_In, filter_In in Hm as [Hin Hmx].
    split; [by apply list_elem_of_In|]. right. by exists a, more.
Qed.

End Coverage.

(** ** More on the writer loop and on matching *)

Lemma filter_Permutation {A} (p : A -> bool) (l l' : list A) :
  l ≡ₚ l' -> List.filter p l ≡ₚ List.filter p l'.
Proof.
  induction 1 as [|x l l' _ IH|x y l|l l' l'' _ IH _ IH'].
  - reflexivity.
  - cbn. destruct (p x); [by constructor|done].
  - cbn. destruct (p x), (p y); try reflexivity. apply perm_swap.
  - by etransitivity.
Qed.

(** X6. Without a filter the order of the registry does not matter: the loop
    gives the same writer, or fails in the same way, for every arrangement
    of the same writers. *)
Theorem suffix_resolution_ignores_registry_order suffix writers writers' w :
  writers ≡ₚ writers' ->
  foreachWriter None suffix writers None w
  = foreachWriter None suffix writers' None w.
Proof.
  intros Hperm%(filter_Permutation (matchesSuffix suffix)).
  rewrite !foreachWriter_suffix.
  destruct (List.filter (matchesSuffix suffix) writers) as [|x [|y l]].
  - apply Permutation_nil_l in Hperm as <-. reflexivity.
  - apply Permutation_singleton_l in Hperm as <-. reflexivity.
  - pose proof (Permutation_length Hperm) as Hlen.
    destruct (List.filter (matchesSuffix suffix) writers') as [|x' [|y' l']];
      [discriminate..|reflexivity].
Qed.

(** X4. The test of line 201 keeps the reads of lines 207-209 inside the list:
    with at least two positional arguments, source and target are the
    arguments at two consecutive positions of the list, the first two when
    there is no filter and the two after the filter otherwise. *)
Theorem export_arguments_are_read_within_bounds (filesToOpen : list string) :
  2 <= length filesToOpen ->
  exists i,
    S i < length filesToOpen /\
    filesToOpen !! i = Some (snd (fst (exportArguments filesToOpen))) /\
    filesToOpen !! S i = Some (snd (exportArguments filesToOpen)) /\
    ((length filesToOpen = 2 /\ i = 0 /\
      fst (fst (exportArguments filesToOpen)) = None) \/
     (2 < length filesToOpen /\ i = 1 /\
      fst (fst (exportArguments filesToOpen)) = filesToOpen !! 0)).
Proof.
  intros Hlen. destruct filesToOpen as [|a [|b [|c more]]]; cbn in Hlen; [lia..| |].
  - exists 0. cbn. repeat split; [lia|]. left. auto.
  - exists 1. cbn. repeat split; [lia|]. right. repeat split. lia.
Qed.



(** *** Letter case *)

Lemma toCaseFolded_idem c : Qt.toCaseFolded (Qt.toCaseFolded c) = Qt.toCaseFolded c.
Proof. destruct c as [[] [] [] [] [] [] [] []]; reflexivity. Qed.

Lemma toCaseFolded_separator c d :
  d = "/"%char \/ d = "."%char ->
  Ascii.eqb (Qt.toCaseFolded c) d = Ascii.eqb c d.
Proof.
  intros [-> | ->]; destruct c as [[] [] [] [] [] [] [] []]; reflexivity.
Qed.

Lemma foldCase_idem s : Qt.foldCase (Qt.foldCase s) = Qt.foldCase s.
Proof.
  induction s as [|c s IH]; [reflexivity|].
  cbn [Qt.foldCase]. by rewrite toCaseFolded_idem, IH.
Qed.

Lemma fileNameFrom_fold acc path :
  Qt.fileNameFrom (Qt.foldCase acc) (Qt.foldCase path)
  = Qt.foldCase (Qt.fileNameFrom acc path).
Proof.
  revert acc. induction path as [|c path IH]; intros acc; [reflexivity|].
  cbn [Qt.foldCase Qt.fileNameFrom].
  rewrite toCaseFolded_separator by auto.
  destruct (Ascii.eqb c "/"); apply IH.
Qed.

Lemma afterFirstDot_fold name :
  Qt.afterFirstDot (Qt.foldCase name) = Qt.foldCase (Qt.afterFirstDot name).
Proof.
  induction name as [|c name IH]; [reflexivity|].
  cbn [Qt.foldCase Qt.afterFirstDot].
  rewrite toCaseFolded_separator by auto.
  by destruct (Ascii.eqb c ".").
Qed.

Lemma completeSuffix_fold path :
  Qt.completeSuffix (Qt.foldCase path) = Qt.foldCase (Qt.completeSuffix path).
Proof.
  unfold Qt.completeSuffix, Qt.fileName.
  by rewrite fileNameFrom_fold, afterFirstDot_fold.
Qed.

Lemma matchesSuffix_fold suffix writer :
  matchesSuffix (Qt.foldCase suffix) writer = matchesSuffix suffix writer.
Proof.
  unfold matchesSuffix, Qt.listFilter. do 2 f_equal.
  apply List.filter_ext. intros p. unfold Qt.contains. cbn [Qt.normalise].
  by rewrite foldCase_idem.
Qed.

Lemma matchesFilter_fold filter writer :
  matchesFilter (Qt.foldCase filter) writer = matchesFilter filter writer.
Proof.
  unfold matchesFilter, Qt.listContains.
  induction (nameFilters writer) as [|p l IH]; [reflexivity|].
  cbn [existsb]. rewrite IH. f_equal.
  unfold Qt.equals. cbn [Qt.normalise]. by rewrite foldCase_idem.
Qed.

Lemma foreachWriter_same_matches filter filter' suffix suffix' writers chosen w :
  (forall x, matchesSuffix suffix x = matchesSuffix suffix' x) ->
  match filter, filter' with
  | Some f, Some f' => forall x, matchesFilter f x = matchesFilter f' x
  | None, None => True
  | _, _ => False
  end ->
  foreachWriter filter suffix writers chosen w
  = foreachWriter filter' suffix' writers chosen w.
Proof.
  intros Hs Hf. revert chosen.
  induction writers as [|x writers IH]; intros chosen; [by destruct filter, filter'|].
  destruct filter as [f|], filter' as [f'|]; try done; cbn [foreachWriter].
  - rewrite Hf. destruct (matchesFilter f' x); apply IH.
  - rewrite Hs. destruct (matchesSuffix suffix' x); [|apply IH].
    destruct chosen; [reflexivity|apply IH].
Qed.

(** X7. Resolution does not see the case of letters in what the user types:
    two targets that differ only in case select the same writer or fail
    alike, and so do two filters that differ only in case. *)
Theorem resolution_ignores_the_case_of_target_and_filter
    target target' filter filter' suffix writers chosen w :
  Qt.foldCase target = Qt.foldCase target' ->
  Qt.foldCase filter = Qt.foldCase filter' ->
  foreachWriter None (Qt.completeSuffix target) writers chosen w
  = foreachWriter None (Qt.completeSuffix target') writers chosen w /\
  foreachWriter (Some filter) suffix writers chosen w
  = foreachWriter (Some filter') suffix writers chosen w.
Proof.
  intros Ht Hf. split; apply foreachWriter_same_matches; try done.
  - intros x.
    rewrite <- (matchesSuffix_fold (Qt.completeSuffix target)),
      <- (matchesSuffix_fold (Qt.completeSuffix target')).
    by rewrite <- !completeSuffix_fold, Ht.
  - intros x.
    rewrite <- (matchesFilter_fold filter), <- (matchesFilter_fold filter').
    by rewrite Hf.
Qed.

(** *** A target without a dot *)

Lemma afterFirstDot_none name :
  hasChar "." name = false -> Qt.afterFirstDot name = EmptyString.
Proof.
  induction name as [|c name IH]; [reflexivity|].
  cbn. destruct (Ascii.eqb c "."); cbn [orb]; [discriminate|exact IH].
Qed.

Lemma matchesSuffix_empty writer :
  matchesSuffix EmptyString writer = negb (Qt.isEmpty (nameFilters writer)).
Proof.
  unfold matchesSuffix, Qt.listFilter. do 2 f_equal.
  induction (nameFilters writer) as [|p l IH]; [reflexivity|].
  cbn [List.filter].
  assert (Qt.contains p EmptyString Qt.CaseInsensitive = true) as ->.
  { unfold Qt.contains. cbn [Qt.normalise Qt.foldCase].
    by destruct (Qt.foldCase p). }
  by rewrite IH.
Qed.

(** X8. When the file name of the target has no dot, its complete suffix is
    empty and every writer that declares a name filter matches it; so the
    export without a filter fails as ambiguous as soon as the registry
    starts with two such writers. *)
Theorem target_without_dot_matches_every_writer target :
  hasChar "." (Qt.fileName target) = false ->
  Qt.completeSuffix target = EmptyString /\
  (forall writer,
      matchesSuffix (Qt.completeSuffix target) writer
      = negb (Qt.isEmpty (nameFilters writer))) /\
  (forall env sourceFile w x y rest,
      pluginWriters env = x :: y :: rest ->
      nameFilters x <> [] ->
      nameFilters y <> [] ->
      resolveWriter env [sourceFile; target] w
      = (Returned 1, addEvent (QWarning (message AmbiguousFormat)) w)).
Proof.
  intros Hdot.
  assert (Qt.completeSuffix target = EmptyString) as Hsuffix
    by (by apply afterFirstDot_none).
  split; [exact Hsuffix|]. rewrite Hsuffix.
  split; [apply matchesSuffix_empty|].
  intros env s w x y rest Hw Hx Hy.
  rewrite resolveWriter_two, Hsuffix, Hw. cbn [List.filter].
  rewrite !matchesSuffix_empty.
  destruct (nameFilters x); [done|]. destruct (nameFilters y); [done|].
  reflexivity.
Qed.

(** * The model at work *)

(** Two writers for [json] in a registry of five, and two writers with the
    same name filter. *)
Lemma C1_loop_on_a_registry :
  foreachWriter None "json"
    ([tmxWriter] ++ jsonWriter :: [tmxWriter] ++ brokenJsonWriter :: [tmxWriter])
    None (initialWorld sampleDisk)
  = (Returned 1,
     addEvent (QWarning (message AmbiguousFormat)) (initialWorld sampleDisk))
  /\
  foreachWriter (Some "flare MAP files (*.TXT)") "tmx"
    ([firstFlare] ++ secondFlare :: [tmxWriter])
    None (initialWorld sampleDisk)
  = (Next (Some secondFlare), initialWorld sampleDisk).
Proof.
  split.
  - apply (proj1 (C1_second_suffix_match_fails_last_filter_match_wins
                    "json" (initialWorld sampleDisk)));
      [repeat constructor | reflexivity | repeat constructor | reflexivity].
  - apply (proj2 (C1_second_suffix_match_fails_last_filter_match_wins
                    "tmx" (initialWorld sampleDisk)));
      [reflexivity | repeat constructor].
Defined.

(** An unknown flag after a version flag and before a file. *)
Lemma C2_bogus_flag_run :
  exists h w1,
    parse (sampleEnv [tmxWriter]) ["tiled"; "-v"; "--bogus"; "a.tmx"]
      newCommandLineHandler (initialWorld sampleDisk)
    = (MalformedArguments, h, w1) /\
    main (sampleEnv [tmxWriter]) ["tiled"; "-v"; "--bogus"; "a.tmx"]
      (initialWorld sampleDisk)
    = (0%Z, w1) /\
    files w1 = files (initialWorld sampleDisk) /\
    exists log,
      events w1 = events (initialWorld sampleDisk) ++ log /\
      forallb fromParser log = true.
Proof.
  apply (C2_unknown_flag_stops_main_with_status_zero (sampleEnv [tmxWriter])
           ["tiled"; "-v"; "--bogus"; "a.tmx"] (initialWorld sampleDisk)).
  reflexivity.
Defined.

(** Against C2 as the specification states it: after an unknown flag the
    status is 0. *)
Lemma C2_bogus_flag_exits_with_zero :
  existsb (isUnknownFlag (registeredOptions (sampleEnv [tmxWriter])))
    (List.tl ["tiled"; "--bogus"]) = true /\
  ~ (fst (main (sampleEnv [tmxWriter]) ["tiled"; "--bogus"]
            (initialWorld sampleDisk)) <> 0%Z).
Proof. split; [reflexivity|]. intros H. apply H. reflexivity. Qed.

(** The backup of a map, in the current directory and in another one. *)
Lemma C3_suffix_of_a_backup :
  (Qt.completeSuffix ("level1" +:+ "." +:+ "tmx.bak") = "tmx.bak" /\
   Qt.completeSuffix ("/home/maps" +:+ "/" +:+ "level1" +:+ "." +:+ "tmx.bak")
   = "tmx.bak") /\
  matchesSuffix (Qt.completeSuffix "level1.tmx.bak") (textWriter ["*.tmx"] "tmx")
  = false /\
  matchesSuffix (Qt.completeSuffix "level1.tmx.bak")
    (textWriter ["*.bak"; "*.tmx.bak"] "backup")
  = true.
Proof.
  destruct C3_writers_are_matched_on_the_complete_suffix
    as (Hsuffix & _ & _ & _ & Hno & Hyes).
  split; [|split].
  - apply (Hsuffix "/home/maps" "level1" "tmx.bak"); reflexivity.
  - apply Hno. reflexivity.
  - apply Hyes. cbn. apply list_elem_of_further, list_elem_of_here.
Defined.

(** An export whose writer fails: status 1, and the map at address 1 and
    its tile sets at addresses 2 and 3 are deleted once each. *)
Lemma C4_failed_write_still_releases :
  let final :=
    snd (main (sampleEnv [tmxWriter; brokenJsonWriter])
           ["tiled"; "--export-map"; "a.tmx"; "b.json"]
           (initialWorld sampleDisk)) in
  fst (main (sampleEnv [tmxWriter; brokenJsonWriter])
         ["tiled"; "--export-map"; "a.tmx"; "b.json"]
         (initialWorld sampleDisk)) = 1%Z /\
  forall p,
    released p (events final)
    = if bool_decide (p ∈ owned sampleMap) then 1 else 0.
Proof.
  split; [reflexivity|].
  apply (C4_map_and_tilesets_released_once (sampleEnv [tmxWriter; brokenJsonWriter])
           ["tiled"; "--export-map"; "a.tmx"; "b.json"] sampleDisk
           "a.tmx" sampleMap).
  - vm_compute. apply list_elem_of_further, list_elem_of_here.
  - exact (bool_decide_unpack (NoDup (owned sampleMap)) I).
Defined.

(** Against C5 as the specification states it: two writers match the
    filter, nothing is reported and the second one writes the target. *)
Lemma C5_two_writers_match_the_filter_and_the_last_is_used :
  let outcome :=
    main (sampleEnv [firstFlare; secondFlare])
      ["tiled"; "--export-map"; "Flare map files (*.txt)"; "a.tmx"; "b.txt"]
      (initialWorld sampleDisk) in
  length (List.filter (matchesFilter "Flare map files (*.txt)")
            [firstFlare; secondFlare]) = 2 /\
  fst outcome = 0%Z /\
  events (snd outcome)
  = [LoadPlugins; ReadMap "a.tmx" (Some sampleMap);
     WriteMap secondFlare sampleMap "b.txt"; Delete 2; Delete 3; Delete 1] /\
  files (snd outcome) !! "b.txt" = Some "second".
Proof. repeat split; reflexivity. Qed.

(** The command line of section 8 of the specification with a filter. *)
Lemma C6_filter_of_three_arguments :
  exists filter sourceFile targetFile more,
    ["TMX files"; "a.tmx"; "b.out"]
    = filter :: sourceFile :: targetFile :: more /\
    exportArguments ["TMX files"; "a.tmx"; "b.out"]
    = (Some filter, sourceFile, targetFile) /\
    (forall writer,
        matchesFilter filter writer = true <->
        exists p, p ∈ nameFilters writer /\
                  Qt.foldCase p = Qt.foldCase filter) /\
    (forall suffix suffix' writers chosen w,
        foreachWriter (Some filter) suffix writers chosen w
        = foreachWriter (Some filter) suffix' writers chosen w) /\
    (forall env w,
        resolveWriter env ["TMX files"; "a.tmx"; "b.out"] w
        = match last (List.filter (matchesFilter filter) (pluginWriters env)) with
          | Some x => (Next (x, sourceFile, targetFile), w)
          | None =>
              (Returned 1, addEvent (QWarning (message NoWriterFound)) w)
          end).
Proof.
  apply (C6_first_of_three_is_the_filter_and_suffix_is_ignored
           ["TMX files"; "a.tmx"; "b.out"]).
  cbn. lia.
Defined.

(** A successful export, a failed write, a missing target and an early
    quit. *)
Lemma C7_status_of_four_runs :
  fst (main (sampleEnv [tmxWriter; jsonWriter])
         ["tiled"; "--export-map"; "a.tmx"; "b.json"]
         (initialWorld sampleDisk)) = 0%Z /\
  fst (main (sampleEnv [tmxWriter; brokenJsonWriter])
         ["tiled"; "--export-map"; "a.tmx"; "b.json"]
         (initialWorld sampleDisk)) = 1%Z /\
  fst (main (sampleEnv [tmxWriter; jsonWriter])
         ["tiled"; "--export-map"; "a.tmx"]
         (initialWorld sampleDisk)) = 1%Z /\
  fst (main (sampleEnv [tmxWriter; jsonWriter])
         ["tiled"; "--export-map"; "--quit"; "a.tmx"]
         (initialWorld sampleDisk)) = 0%Z.
Proof.
  split; [|split; [|split]].
  - destruct (C7_exit_status_of_export_and_quit
                (sampleEnv [tmxWriter; jsonWriter])
                ["tiled"; "--export-map"; "a.tmx"; "b.json"]
                (initialWorld sampleDisk) _ _ eq_refl)
      as (_ & _ & Hexport).
    destruct (Hexport eq_refl eq_refl) as (_ & _ & _ & _ & Hdone).
    destruct (Hdone jsonWriter "a.tmx" "b.json" _ eq_refl) as (_ & Hloaded).
    destruct (Hloaded sampleMap eq_refl) as (_ & Hzero).
    apply Hzero. reflexivity.
  - destruct (C7_exit_status_of_export_and_quit
                (sampleEnv [tmxWriter; brokenJsonWriter])
                ["tiled"; "--export-map"; "a.tmx"; "b.json"]
                (initialWorld sampleDisk) _ _ eq_refl)
      as (_ & _ & Hexport).
    destruct (Hexport eq_refl eq_refl) as (_ & _ & _ & _ & Hdone).
    destruct (Hdone brokenJsonWriter "a.tmx" "b.json" _ eq_refl) as (_ & Hloaded).
    destruct (Hloaded sampleMap eq_refl) as (Hone & _).
    apply Hone. reflexivity.
  - destruct (C7_exit_status_of_export_and_quit
                (sampleEnv [tmxWriter; jsonWriter])
                ["tiled"; "--export-map"; "a.tmx"]
                (initialWorld sampleDisk) _ _ eq_refl)
      as (_ & _ & Hexport).
    destruct (Hexport eq_refl eq_refl) as (Hshort & _).
    apply Hshort. cbn. lia.
  - destruct (C7_exit_status_of_export_and_quit
                (sampleEnv [tmxWriter; jsonWriter])
                ["tiled"; "--export-map"; "--quit"; "a.tmx"]
                (initialWorld sampleDisk) _ _ eq_refl)
      as (Hquit & _ & _).
    apply Hquit. reflexivity.
Defined.

(** One positional argument, two, and four. *)
Lemma C8_one_and_four_arguments :
  resolveWriter (sampleEnv [jsonWriter]) ["a.tmx"] (initialWorld sampleDisk)
  = (Returned 1,
     addEvent (QWarning (message InsufficientArguments))
       (initialWorld sampleDisk)) /\
  exportArguments ["a.tmx"; "b.json"] = (None, "a.tmx", "b.json") /\
  (exportArguments ["Json files (*.json)"; "a.tmx"; "b.json"; "c.json"]
   = (Some "Json files (*.json)", "a.tmx", "b.json") /\
   resolveWriter (sampleEnv [jsonWriter])
     ["Json files (*.json)"; "a.tmx"; "b.json"; "c.json"]
     (initialWorld sampleDisk)
   = resolveWriter (sampleEnv [jsonWriter])
       ["Json files (*.json)"; "a.tmx"; "b.json"] (initialWorld sampleDisk)) /\
  resolveWriter (sampleEnv [jsonWriter])
    ["Json files (*.json)"; "a.tmx"; "b.json"; "c.json"]
    (initialWorld sampleDisk)
  <> (Returned 1,
      addEvent (QWarning (message InsufficientArguments))
        (initialWorld sampleDisk)).
Proof.
  split; [|split; [|split]].
  - apply (C8_fewer_than_two_is_an_error_more_than_three_is_not
             (sampleEnv [jsonWriter]) ["a.tmx"] (initialWorld sampleDisk)).
    cbn. lia.
  - apply (C8_fewer_than_two_is_an_error_more_than_three_is_not
             (sampleEnv [jsonWriter]) ["a.tmx"; "b.json"]
             (initialWorld sampleDisk)).
    reflexivity.
  - apply (proj1 (proj2 (proj2
             (C8_fewer_than_two_is_an_error_more_than_three_is_not
                (sampleEnv [jsonWriter])
                ["Json files (*.json)"; "a.tmx"; "b.json"; "c.json"]
                (initialWorld sampleDisk)))) _ _ _ ["c.json"]).
    reflexivity.
  - apply (C8_fewer_than_two_is_an_error_more_than_three_is_not
             (sampleEnv [jsonWriter])
             ["Json files (*.json)"; "a.tmx"; "b.json"; "c.json"]
             (initialWorld sampleDisk)).
    cbn. lia.
Defined.

(** Against C8 as the specification states it: three file arguments follow
    the filter, nothing is reported and the export runs on the first two. *)
Lemma C8_three_files_after_the_filter_are_accepted :
  let arguments :=
    ["tiled"; "--export-map"; "Json files (*.json)"; "a.tmx"; "b.json";
     "c.json"] in
  let outcome :=
    main (sampleEnv [tmxWriter; jsonWriter]) arguments
      (initialWorld sampleDisk) in
  filesToOpen
    (snd (fst (parse (sampleEnv [tmxWriter; jsonWriter]) arguments
                 newCommandLineHandler (initialWorld sampleDisk))))
  = ["Json files (*.json)"; "a.tmx"; "b.json"; "c.json"] /\
  fst outcome = 0%Z /\
  events (snd outcome)
  = [LoadPlugins; ReadMap "a.tmx" (Some sampleMap);
     WriteMap jsonWriter sampleMap "b.json"; Delete 2; Delete 3; Delete 1] /\
  files (snd outcome) !! "b.json" = Some "json".
Proof. repeat split; reflexivity. Qed.

(** No registered writer knows the extension of the target. *)
Lemma C9_unknown_extension_leaves_the_disk :
  exists w',
    main (sampleEnv [tmxWriter; jsonWriter])
      ["tiled"; "--export-map"; "a.tmx"; "b.png"] (initialWorld sampleDisk)
    = (1%Z, w') /\
    files w' = files (initialWorld sampleDisk) /\
    exists log e,
      w' = addEvent (QWarning (message e))
             (afterStartup
                {| quit := false; showedVersion := false;
                   disableOpenGL := false; exportMap := true;
                   filesToOpen := ["a.tmx"; "b.png"] |}
                (initialWorld sampleDisk)) /\
      events w' = events (initialWorld sampleDisk) ++ log
                  ++ [QWarning (message e)] /\
      forallb noMapIO log = true /\
      (e = InsufficientArguments \/ e = AmbiguousFormat \/ e = NoWriterFound).
Proof.
  eexists.
  eapply (C9_failed_resolution_reads_and_writes_nothing
            (sampleEnv [tmxWriter; jsonWriter])
            ["tiled"; "--export-map"; "a.tmx"; "b.png"]
            (initialWorld sampleDisk)).
  - vm_compute. reflexivity.
  - reflexivity.
  - reflexivity.
  - vm_compute. reflexivity.
Defined.

(** Both spellings of the version flag on one command line. *)
Lemma C10_version_asked_twice :
  parse (sampleEnv []) ["tiled"; "-v"; "a.tmx"; "--version"; "b.tmx"]
    newCommandLineHandler (initialWorld sampleDisk)
  = parse (sampleEnv []) ["tiled"; "-v"; "a.tmx"; "b.tmx"]
      newCommandLineHandler (initialWorld sampleDisk) /\
  exists h' w',
    events w' = [QWarning "Dofus.io Map Editor 0.12.0"] /\
    quit h' = true /\
    main (sampleEnv []) ["tiled"; "-v"; "a.tmx"; "--version"; "b.tmx"]
      (initialWorld sampleDisk)
    = (0%Z, w').
Proof.
  destruct (C10_version_flag_is_idempotent_and_requests_quit (sampleEnv [])
              ["tiled"; "-v"; "a.tmx"; "--version"; "b.tmx"]
              (initialWorld sampleDisk))
    as (_ & _ & _ & Hdrop & Hquit).
  split.
  - apply (Hdrop "tiled" [] "-v" ["a.tmx"] "--version" ["b.tmx"]); reflexivity.
  - eexists _, _. split; [|eapply Hquit; reflexivity]. reflexivity.
Defined.

(** The two runs that section 8 of the specification describes end to
    end. *)
Example export_by_suffix :
  let outcome :=
    main (sampleEnv [jsonWriter; tmxWriter])
      ["tiled"; "--export-map"; "a.tmx"; "b.json"] (initialWorld sampleDisk) in
  fst outcome = 0%Z /\
  events (snd outcome)
  = [LoadPlugins; ReadMap "a.tmx" (Some sampleMap);
     WriteMap jsonWriter sampleMap "b.json"; Delete 2; Delete 3; Delete 1] /\
  files (snd outcome) !! "b.json" = Some "json".
Proof. repeat split; reflexivity. Qed.

Example export_by_filter :
  let outcome :=
    main (sampleEnv [jsonWriter; textWriter ["TMX files"] "tmx"])
      ["tiled"; "--export-map"; "TMX files"; "a.tmx"; "b.out"]
      (initialWorld sampleDisk) in
  fst outcome = 0%Z /\ files (snd outcome) !! "b.out" = Some "tmx".
Proof. split; reflexivity. Qed.

(** A target without any dot has the empty suffix, which every name filter
    contains: with two writers the format is ambiguous. *)
Example export_without_suffix :
  main (sampleEnv [jsonWriter; tmxWriter])
    ["tiled"; "--export-map"; "a.tmx"; "b"] (initialWorld sampleDisk)
  = (1%Z,
     {| events := [LoadPlugins; QWarning (message AmbiguousFormat)];
        files := sampleDisk |}).
Proof. reflexivity. Qed.

(** ** The rest of [main] at work *)

(** The version flag and the export flag, in both orders. *)
Lemma X1_version_and_export_in_both_orders :
  andThen (showVersion (sampleEnv [])) (showVersion (sampleEnv []))
    newCommandLineHandler (initialWorld sampleDisk)
  = showVersion (sampleEnv []) newCommandLineHandler (initialWorld sampleDisk) /\
  andThen (showVersion (sampleEnv [])) setExportMap
    newCommandLineHandler (initialWorld sampleDisk)
  = andThen setExportMap (showVersion (sampleEnv []))
      newCommandLineHandler (initialWorld sampleDisk).
Proof.
  apply (flag_handlers_are_idempotent_and_commute (sampleEnv [])
           {| shortName := Some "v"%char; longName := "--version";
              help := "Display the version";
              handler := showVersion (sampleEnv []) |}
           {| shortName := None; longName := "--export-map";
              help := "Export the specified tmx file to target";
              handler := setExportMap |}).
  - apply list_elem_of_here.
  - do 3 apply list_elem_of_further. apply list_elem_of_here.
Defined.

(** The quit flag among the other flags and two files. *)
Lemma X2_quit_among_other_flags :
  main (sampleEnv [tmxWriter; jsonWriter])
    ["tiled"; "--disable-opengl"; "--export-map"; "a.tmx"; "--quit"; "b.json"]
    (initialWorld sampleDisk)
  = (0%Z, initialWorld sampleDisk).
Proof.
  apply quit_flag_alone_does_nothing.
  - reflexivity.
  - do 3 apply list_elem_of_further. apply list_elem_of_here.
Defined.

(** The flag for the preference given twice, before a file to open. *)
Lemma X3_preference_flag_given_twice :
  let final :=
    events (snd (main (sampleEnv [])
                   ["tiled"; "--disable-opengl"; "--disable-opengl"; "a.tmx"]
                   (initialWorld sampleDisk))) in
  occurrences isLoadPlugins final = 0 + 1 /\
  occurrences (isSetUseOpenGL false) final = 0 + 1 /\
  occurrences (isSetUseOpenGL true) final = 0.
Proof.
  exact (startup_runs_once_after_the_quit_check (sampleEnv [])
           ["tiled"; "--disable-opengl"; "--disable-opengl"; "a.tmx"]
           (initialWorld sampleDisk) _ _ _ eq_refl).
Defined.

(** Three positional arguments: the source is the second of them. *)
Lemma X4_reads_of_three_arguments :
  exists i,
    S i < 3 /\
    ["TMX files"; "a.tmx"; "b.out"] !! i = Some "a.tmx" /\
    ["TMX files"; "a.tmx"; "b.out"] !! S i = Some "b.out" /\
    ((3 = 2 /\ i = 0 /\ Some "TMX files" = None) \/
     (2 < 3 /\ i = 1 /\ Some "TMX files" = Some "TMX files")).
Proof.
  apply (export_arguments_are_read_within_bounds
           ["TMX files"; "a.tmx"; "b.out"]).
  cbn. lia.
Defined.

(** The writer of the only matching format in a registry of two. *)
Lemma X5_json_writer_resolved :
  initialWorld sampleDisk = initialWorld sampleDisk /\
  jsonWriter ∈ pluginWriters (sampleEnv [tmxWriter; jsonWriter]) /\
  ((["a.tmx"; "b.json"] = ["a.tmx"; "b.json"] /\
    matchesSuffix (Qt.completeSuffix "b.json") jsonWriter = true /\
    forall x, x ∈ pluginWriters (sampleEnv [tmxWriter; jsonWriter]) ->
              matchesSuffix (Qt.completeSuffix "b.json") x = true ->
              x = jsonWriter) \/
   (exists filter more,
       ["a.tmx"; "b.json"] = filter :: "a.tmx" :: "b.json" :: more /\
       matchesFilter filter jsonWriter = true)).
Proof.
  apply (resolved_writer_is_registered_and_matches
           (sampleEnv [tmxWriter; jsonWriter]) ["a.tmx"; "b.json"]
           (initialWorld sampleDisk) jsonWriter "a.tmx" "b.json"
           (initialWorld sampleDisk)).
  reflexivity.
Defined.

(** A registry of three and the same registry with its ends swapped. *)
Lemma X6_registry_reordered :
  foreachWriter None "json" [tmxWriter; firstFlare; jsonWriter] None
    (initialWorld sampleDisk)
  = foreachWriter None "json" [jsonWriter; firstFlare; tmxWriter] None
      (initialWorld sampleDisk).
Proof.
  apply suffix_resolution_ignores_registry_order.
  change [tmxWriter; firstFlare; jsonWriter]
    with ([tmxWriter] ++ [firstFlare] ++ [jsonWriter]).
  change [jsonWriter; firstFlare; tmxWriter]
    with ([jsonWriter] ++ [firstFlare] ++ [tmxWriter]).
  rewrite (Permutation_app_comm [tmxWriter]).
  rewrite (Permutation_app_comm [firstFlare]).
  by rewrite <- app_assoc.
Defined.

(** A target and a filter typed in capitals. *)
Lemma X7_target_and_filter_in_capitals :
  foreachWriter None (Qt.completeSuffix "B.JSON") [tmxWriter; jsonWriter] None
    (initialWorld sampleDisk)
  = foreachWriter None (Qt.completeSuffix "b.json") [tmxWriter; jsonWriter] None
      (initialWorld sampleDisk) /\
  foreachWriter (Some "JSON FILES (*.JSON)") "out" [tmxWriter; jsonWriter] None
    (initialWorld sampleDisk)
  = foreachWriter (Some "Json files (*.json)") "out" [tmxWriter; jsonWriter] None
      (initialWorld sampleDisk).
Proof.
  apply resolution_ignores_the_case_of_target_and_filter; reflexivity.
Defined.

(** A target in a directory whose name has a dot, with two writers. *)
Lemma X8_target_without_extension :
  Qt.completeSuffix "/maps.d/level1" = EmptyString /\
  resolveWriter (sampleEnv [tmxWriter; jsonWriter]) ["a.tmx"; "/maps.d/level1"]
    (initialWorld sampleDisk)
  = (Returned 1,
     addEvent (QWarning (message AmbiguousFormat)) (initialWorld sampleDisk)).
Proof.
  destruct (target_without_dot_matches_every_writer "/maps.d/level1" eq_refl)
    as (Hsuffix & _ & Hambiguous).
  split; [exact Hsuffix|].
  apply (Hambiguous (sampleEnv [tmxWriter; jsonWriter]) "a.tmx"
           (initialWorld sampleDisk) tmxWriter jsonWriter []);
    [reflexivity|discriminate|discriminate].
Defined.

(** A source that is not on the disk. *)
Lemma X9_missing_source :
  main (sampleEnv [tmxWriter; jsonWriter])
    ["tiled"; "--export-map"; "missing.tmx"; "b.json"] (initialWorld sampleDisk)
  = (1%Z,
     {| events := [LoadPlugins; ReadMap "missing.tmx" None;
                   QWarning (message SourceLoadFailed)];
        files := sampleDisk |}).
Proof.
  exact (unreadable_source_is_neither_written_nor_deleted
           (sampleEnv [tmxWriter; jsonWriter])
           ["tiled"; "--export-map"; "missing.tmx"; "b.json"]
           (initialWorld sampleDisk) _ _ jsonWriter "missing.tmx" "b.json" _
           eq_refl eq_refl eq_refl eq_refl eq_refl).
Defined.

(** An export whose writer fails after the map was loaded. *)
Lemma X10_map_written_then_deleted :
  main (sampleEnv [tmxWriter; brokenJsonWriter])
    ["tiled"; "--export-map"; "a.tmx"; "b.json"] (initialWorld sampleDisk)
  = (1%Z,
     {| events := [LoadPlugins; ReadMap "a.tmx" (Some sampleMap);
                   WriteMap brokenJsonWriter sampleMap "b.json";
                   Delete 2; Delete 3; Delete 1;
                   QWarning (message ExportWriteFailed)];
        files := sampleDisk |}).
Proof.
  exact (loaded_map_is_written_then_deleted
           (sampleEnv [tmxWriter; brokenJsonWriter])
           ["tiled"; "--export-map"; "a.tmx"; "b.json"]
           (initialWorld sampleDisk) _ _ brokenJsonWriter "a.tmx" "b.json" _
           sampleMap eq_refl eq_refl eq_refl eq_refl eq_refl).
Defined.

(** An export to a format that no writer knows. *)
Lemma X11_one_line_for_an_unknown_format :
  exists tail,
    events (snd (main (sampleEnv [tmxWriter; jsonWriter])
                   ["tiled"; "--export-map"; "a.tmx"; "b.png"]
                   (initialWorld sampleDisk)))
    = [LoadPlugins] ++ tail /\
    ((fst (main (sampleEnv [tmxWriter; jsonWriter])
             ["tiled"; "--export-map"; "a.tmx"; "b.png"]
             (initialWorld sampleDisk)) = 0%Z /\
      occurrences isWarning tail = 0) \/
     (fst (main (sampleEnv [tmxWriter; jsonWriter])
             ["tiled"; "--export-map"; "a.tmx"; "b.png"]
             (initialWorld sampleDisk)) = 1%Z /\
      exists before e,
        tail = before ++ [QWarning (message e)] /\
        occurrences isWarning before = 0)).
Proof.
  exact (export_prints_one_line_exactly_when_it_fails
           (sampleEnv [tmxWriter; jsonWriter])
           ["tiled"; "--export-map"; "a.tmx"; "b.png"]
           (initialWorld sampleDisk) _ _ eq_refl eq_refl eq_refl).
Defined.


